(** * Theme handling of the portfolio page (script.js, class ThemeManager)

    A shallow embedding of the theme code of [script.js]: the class
    [ThemeManager] (lines 26-142), the global [darkModeToggle] (line 15),
    the Ctrl/Cmd+D shortcut of [KeyboardNavigation] (lines 742-748) and the
    [DOMContentLoaded] initializer (lines 904-947), over an explicit model
    of the part of the browser they touch: the attributes of the document
    root, [localStorage], the colour-scheme media query, the toggle
    checkbox, its label, pending timers, registered listeners and the
    error console.

    JavaScript code is embedded in a state-and-exception monad [JS]: a
    statement maps a [World] to an outcome and the world it leaves behind.
    A thrown exception keeps every effect made before the throw. *)

From stdpp Require Import gmap strings list fin_maps.

Local Open Scope string_scope.

(** ** The browser state *)

(** Exceptions the modelled browser calls raise. *)
Inductive Exn : Type :=
  | SecurityError       (* storage access denied *)
  | QuotaExceededError  (* storage write rejected *)
  | TypeError.          (* property access on null *)

#[global] Instance Exn_eq_dec : EqDecision Exn.
Proof. solve_decision. Defined.

Inductive Outcome (A : Type) : Type :=
  | Ok (a : A)
  | Throw (e : Exn).
Arguments Ok {A} a.
Arguments Throw {A} e.

(** How [localStorage] behaves on this page load.  [Functional]: reads and
    writes work.  [WritesRejected]: [getItem] works, [setItem] throws
    QuotaExceededError.  [AccessDenied]: every access throws SecurityError
    (storage blocked for the origin). *)
Inductive StorageMode : Type := Functional | WritesRejected | AccessDenied.

#[global] Instance StorageMode_eq_dec : EqDecision StorageMode.
Proof. solve_decision. Defined.

(** What the operating system reports for [prefers-color-scheme]. *)
Inductive OsPref : Type := NoPreference | PrefersLight | PrefersDark.

#[global] Instance OsPref_eq_dec : EqDecision OsPref.
Proof. solve_decision. Defined.

(** [window.matchMedia('(prefers-color-scheme: dark)').matches] *)
Definition matches (p : OsPref) : bool :=
  match p with PrefersDark => true | _ => false end.

(** The checkbox [#darkModeToggle]: its [checked] property and attributes. *)
Record Checkbox : Type := mkCheckbox {
  checked : bool;
  cb_attrs : gmap string string
}.

(** The element [.theme-toggle-label]: inline style properties and the
    ripple nodes appended to it (a ripple is identified by its node id; its
    [cssText] is a constant of the source). *)
Record LabelEl : Type := mkLabel {
  style : gmap string string;
  ripples : list nat
}.

(** Callbacks handed to [setTimeout] by [addToggleAnimation]. *)
Inductive TimerAction : Type :=
  | ResetScale                 (* toggleLabel.style.transform = 'scale(1)' *)
  | RemoveRipple (node : nat). (* ripple.remove() *)

Record World : Type := mkWorld {
  root_attrs : gmap string string;      (* document.documentElement attributes *)
  storage_mode : StorageMode;
  local_storage : gmap string string;   (* localStorage items *)
  os_pref : OsPref;
  darkModeToggle : option Checkbox;     (* getElementById result, None = null *)
  theme_toggle_label : option LabelEl;  (* querySelector result, None = null *)
  currentTheme : string;                (* this.currentTheme of the page's ThemeManager *)
  change_listener : bool;               (* 'change' listener on darkModeToggle *)
  media_listener : bool;                (* 'change' listener on the media query *)
  keydown_listener : bool;              (* 'keydown' listener of KeyboardNavigation *)
  timers : list (nat * TimerAction);    (* pending timeouts: delay in ms, callback *)
  next_node : nat;                      (* id of the next created element *)
  console_errors : list Exn             (* errors written to the console *)
}.

(** Field updates. *)
Definition with_root_attrs (f : gmap string string → gmap string string) (w : World) : World :=
  mkWorld (f (root_attrs w)) (storage_mode w) (local_storage w) (os_pref w)
    (darkModeToggle w) (theme_toggle_label w) (currentTheme w) (change_listener w)
    (media_listener w) (keydown_listener w) (timers w) (next_node w) (console_errors w).

Definition with_local_storage (f : gmap string string → gmap string string) (w : World) : World :=
  mkWorld (root_attrs w) (storage_mode w) (f (local_storage w)) (os_pref w)
    (darkModeToggle w) (theme_toggle_label w) (currentTheme w) (change_listener w)
    (media_listener w) (keydown_listener w) (timers w) (next_node w) (console_errors w).

Definition with_os_pref (p : OsPref) (w : World) : World :=
  mkWorld (root_attrs w) (storage_mode w) (local_storage w) p
    (darkModeToggle w) (theme_toggle_label w) (currentTheme w) (change_listener w)
    (media_listener w) (keydown_listener w) (timers w) (next_node w) (console_errors w).

Definition with_toggle (c : Checkbox) (w : World) : World :=
  mkWorld (root_attrs w) (storage_mode w) (local_storage w) (os_pref w)
    (Some c) (theme_toggle_label w) (currentTheme w) (change_listener w)
    (media_listener w) (keydown_listener w) (timers w) (next_node w) (console_errors w).

Definition with_label (l : LabelEl) (w : World) : World :=
  mkWorld (root_attrs w) (storage_mode w) (local_storage w) (os_pref w)
    (darkModeToggle w) (Some l) (currentTheme w) (change_listener w)
    (media_listener w) (keydown_listener w) (timers w) (next_node w) (console_errors w).

Definition with_currentTheme (t : string) (w : World) : World :=
  mkWorld (root_attrs w) (storage_mode w) (local_storage w) (os_pref w)
    (darkModeToggle w) (theme_toggle_label w) t (change_listener w)
    (media_listener w) (keydown_listener w) (timers w) (next_node w) (console_errors w).

Definition with_change_listener (b : bool) (w : World) : World :=
  mkWorld (root_attrs w) (storage_mode w) (local_storage w) (os_pref w)
    (darkModeToggle w) (theme_toggle_label w) (currentTheme w) b
    (media_listener w) (keydown_listener w) (timers w) (next_node w) (console_errors w).

Definition with_media_listener (b : bool) (w : World) : World :=
  mkWorld (root_attrs w) (storage_mode w) (local_storage w) (os_pref w)
    (darkModeToggle w) (theme_toggle_label w) (currentTheme w) (change_listener w)
    b (keydown_listener w) (timers w) (next_node w) (console_errors w).

Definition with_keydown_listener (b : bool) (w : World) : World :=
  mkWorld (root_attrs w) (storage_mode w) (local_storage w) (os_pref w)
    (darkModeToggle w) (theme_toggle_label w) (currentTheme w) (change_listener w)
    (media_listener w) b (timers w) (next_node w) (console_errors w).

Definition with_timers (f : list (nat * TimerAction) → list (nat * TimerAction)) (w : World) : World :=
  mkWorld (root_attrs w) (storage_mode w) (local_storage w) (os_pref w)
    (darkModeToggle w) (theme_toggle_label w) (currentTheme w) (change_listener w)
    (media_listener w) (keydown_listener w) (f (timers w)) (next_node w) (console_errors w).

Definition with_next_node (n : nat) (w : World) : World :=
  mkWorld (root_attrs w) (storage_mode w) (local_storage w) (os_pref w)
    (darkModeToggle w) (theme_toggle_label w) (currentTheme w) (change_listener w)
    (media_listener w) (keydown_listener w) (timers w) n (console_errors w).

Definition with_console_error (e : Exn) (w : World) : World :=
  mkWorld (root_attrs w) (storage_mode w) (local_storage w) (os_pref w)
    (darkModeToggle w) (theme_toggle_label w) (currentTheme w) (change_listener w)
    (media_listener w) (keydown_listener w) (timers w) (next_node w)
    (console_errors w ++ [e])%list.

(** ** The monad of JavaScript statements *)

Definition JS (A : Type) : Type := World → Outcome A * World.

Definition ret {A} (a : A) : JS A := λ w, (Ok a, w).

Definition throw {A} (e : Exn) : JS A := λ w, (Throw e, w).

Definition bind {A B} (m : JS A) (k : A → JS B) : JS B :=
  λ w, match m w with
       | (Ok a, w') => k a w'
       | (Throw e, w') => (Throw e, w')
       end.

Notation "'let!' x ':=' m 'in' k" := (bind m (λ x, k))
  (at level 10, x name, m at level 100, k at level 200).
Notation "m ';;' k" := (bind m (λ _, k))
  (at level 100, k at level 200, right associativity).

(** [try { m } catch (error) { console.error(..., error) }] *)
Definition try_catch_log (m : JS unit) : World → World :=
  λ w, match m w with
       | (Ok _, w') => w'
       | (Throw e, w') => with_console_error e w'
       end.

(** An uncaught exception of an event listener is reported on the console;
    the listener's effects up to the throw stay. *)
Definition run_listener (m : JS unit) : World → World := try_catch_log m.

(** ** Browser calls used by the theme code *)

(** [document.documentElement.setAttribute(name, value)] *)
Definition documentElement_setAttribute (name value : string) : JS unit :=
  λ w, (Ok (), with_root_attrs (insert name value) w).

(** [localStorage.getItem(key)]: [None] is JavaScript's [null]. *)
Definition localStorage_getItem (key : string) : JS (option string) :=
  λ w, match storage_mode w with
       | AccessDenied => (Throw SecurityError, w)
       | _ => (Ok (local_storage w !! key), w)
       end.

(** [localStorage.setItem(key, value)] *)
Definition localStorage_setItem (key value : string) : JS unit :=
  λ w, match storage_mode w with
       | AccessDenied => (Throw SecurityError, w)
       | WritesRejected => (Throw QuotaExceededError, w)
       | Functional => (Ok (), with_local_storage (insert key value) w)
       end.

(** [window.matchMedia('(prefers-color-scheme: dark)').matches] *)
Definition matchMedia_matches : JS bool := λ w, (Ok (matches (os_pref w)), w).

(** [darkModeToggle.checked = b]; TypeError when [darkModeToggle] is null. *)
Definition darkModeToggle_set_checked (b : bool) : JS unit :=
  λ w, match darkModeToggle w with
       | Some c => (Ok (), with_toggle (mkCheckbox b (cb_attrs c)) w)
       | None => (Throw TypeError, w)
       end.

(** [darkModeToggle.checked] *)
Definition darkModeToggle_get_checked : JS bool :=
  λ w, match darkModeToggle w with
       | Some c => (Ok (checked c), w)
       | None => (Throw TypeError, w)
       end.

(** [darkModeToggle.setAttribute(name, value)] *)
Definition darkModeToggle_setAttribute (name value : string) : JS unit :=
  λ w, match darkModeToggle w with
       | Some c => (Ok (), with_toggle (mkCheckbox (checked c) (<[name:=value]> (cb_attrs c))) w)
       | None => (Throw TypeError, w)
       end.

(** [darkModeToggle.addEventListener('change', ...)] *)
Definition darkModeToggle_addEventListener : JS unit :=
  λ w, match darkModeToggle w with
       | Some _ => (Ok (), with_change_listener true w)
       | None => (Throw TypeError, w)
       end.

(** [window.matchMedia(...).addEventListener('change', ...)] *)
Definition matchMedia_addEventListener : JS unit :=
  λ w, (Ok (), with_media_listener true w).

(** [toggleLabel.style.<prop> = value], where [toggleLabel] is the result of
    [document.querySelector('.theme-toggle-label')]. *)
Definition toggleLabel_set_style (prop value : string) : JS unit :=
  λ w, match theme_toggle_label w with
       | Some l => (Ok (), with_label (mkLabel (<[prop:=value]> (style l)) (ripples l)) w)
       | None => (Throw TypeError, w)
       end.

(** [document.createElement('div')] with the ripple's [cssText]. *)
Definition createElement_ripple : JS nat :=
  λ w, (Ok (next_node w), with_next_node (S (next_node w)) w).

(** [toggleLabel.appendChild(ripple)] *)
Definition toggleLabel_appendChild (node : nat) : JS unit :=
  λ w, match theme_toggle_label w with
       | Some l => (Ok (), with_label (mkLabel (style l) (ripples l ++ [node])%list) w)
       | None => (Throw TypeError, w)
       end.

(** [setTimeout(callback, delay)] *)
Definition setTimeout (a : TimerAction) (delay : nat) : JS unit :=
  λ w, (Ok (), with_timers (λ ts, (ts ++ [(delay, a)])%list) w).

(** [this.currentTheme] and [this.currentTheme = t] *)
Definition get_currentTheme : JS string := λ w, (Ok (currentTheme w), w).
Definition set_currentTheme (t : string) : JS unit :=
  λ w, (Ok (), with_currentTheme t w).

(** JavaScript's [a || b] for [a] a string or null: [a] when it is truthy
    (a non-empty string), else [b], which is evaluated only then. *)
Definition js_or (a : option string) (b : JS string) : JS string :=
  match a with
  | Some s => if decide (s = "") then b else ret s
  | None => b
  end.

(** ** class ThemeManager *)

Module ThemeManager.

(** script.js:36-38 *)
Definition getStoredTheme : JS (option string) := localStorage_getItem "theme".

(** script.js:44-46 *)
Definition getPreferredTheme : JS string :=
  let! m := matchMedia_matches in
  ret (if m then "dark" else "light").

(** script.js:63-71 *)
Definition updateToggleState : JS unit :=
  let! cur := get_currentTheme in
  if decide (cur = "dark") then
    darkModeToggle_set_checked true ;;
    darkModeToggle_setAttribute "aria-label" "Switch to light mode"
  else
    darkModeToggle_set_checked false ;;
    darkModeToggle_setAttribute "aria-label" "Switch to dark mode".

(** script.js:52-57 *)
Definition setTheme (theme : string) : JS unit :=
  documentElement_setAttribute "data-theme" theme ;;
  localStorage_setItem "theme" theme ;;
  set_currentTheme theme ;;
  updateToggleState.

(** script.js:89-122 *)
Definition addToggleAnimation : JS unit :=
  toggleLabel_set_style "transform" "scale(0.95)" ;;
  setTimeout ResetScale 150 ;;
  let! ripple := createElement_ripple in
  toggleLabel_set_style "position" "relative" ;;
  toggleLabel_appendChild ripple ;;
  setTimeout (RemoveRipple ripple) 600.

(** script.js:77-83 *)
Definition toggleTheme : JS unit :=
  let! cur := get_currentTheme in
  let newTheme := if decide (cur = "dark") then "light" else "dark" in
  setTheme newTheme ;;
  addToggleAnimation.

(** The listener of script.js:136-140, called with [e.matches]. *)
Definition onPreferenceChange (e_matches : bool) : JS unit :=
  let! stored := getStoredTheme in
  match stored with
  | Some s => if decide (s = "") then setTheme (if e_matches then "dark" else "light")
              else ret ()
  | None => setTheme (if e_matches then "dark" else "light")
  end.

(** script.js:128-141 *)
Definition init : JS unit :=
  let! cur := get_currentTheme in
  setTheme cur ;;
  darkModeToggle_addEventListener ;;
  matchMedia_addEventListener.

(** The initial value: [this.getStoredTheme() || this.getPreferredTheme()]
    (script.js:28). *)
Definition resolveInitialTheme : JS string :=
  let! stored := getStoredTheme in
  js_or stored getPreferredTheme.

(** script.js:27-30, run by [new ThemeManager()] *)
Definition constructor : JS unit :=
  let! t := resolveInitialTheme in
  set_currentTheme t ;;
  init.

End ThemeManager.

(** ** class KeyboardNavigation: the theme shortcut *)

(** [darkModeToggle.dispatchEvent(new Event('change'))], and the browser's own
    dispatch after a click: the registered listener
    [() => this.toggleTheme()] (script.js:132) runs to completion; what it
    throws is reported, not propagated to the dispatcher. *)
Definition dispatch_change (w : World) : World :=
  if change_listener w then run_listener ThemeManager.toggleTheme w else w.

Module KeyboardNavigation.

(** script.js:744-748, the branch of the 'keydown' listener taken on
    Ctrl/Cmd+D. *)
Definition onCtrlD : JS unit :=
  let! c := darkModeToggle_get_checked in
  darkModeToggle_set_checked (negb c) ;;
  λ w, (Ok (), dispatch_change w).

(** script.js:741, [document.addEventListener('keydown', ...)] *)
Definition init : JS unit := λ w, (Ok (), with_keydown_listener true w).

(** script.js:737-739, run by [new KeyboardNavigation()] *)
Definition constructor : JS unit := init.

End KeyboardNavigation.

(** ** Page load and events *)

(** The components constructed between [ThemeManager] and
    [KeyboardNavigation] (script.js:908-915) touch none of the theme state;
    all that matters here is whether one of them throws. *)
Definition other_components (failure : option Exn) : JS unit :=
  match failure with
  | None => ret ()
  | Some e => throw e
  end.

(** The [DOMContentLoaded] listener, script.js:904-947. *)
Definition DOMContentLoaded (failure : option Exn) : World → World :=
  try_catch_log
    (ThemeManager.constructor ;;
     other_components failure ;;
     KeyboardNavigation.constructor).

(** What can happen on a loaded page. *)
Inductive Event : Type :=
  | UserToggle            (* a click on the checkbox: checked flips, 'change' fires *)
  | CtrlD                 (* keydown with Ctrl/Cmd+D *)
  | OsChange (p : OsPref) (* the OS reports a new colour-scheme preference *)
  | TimerFires (i : nat). (* the i-th pending timeout runs *)

(** The callbacks of script.js:94-96 and 119-121; [toggleLabel] and [ripple]
    are captured references. *)
Definition run_timer (a : TimerAction) (w : World) : World :=
  match theme_toggle_label w with
  | Some l =>
      match a with
      | ResetScale => with_label (mkLabel (<["transform":="scale(1)"]> (style l)) (ripples l)) w
      | RemoveRipple n => with_label (mkLabel (style l) (filter (λ k, k ≠ n) (ripples l))) w
      end
  | None => w
  end.

Definition step (e : Event) (w : World) : World :=
  match e with
  | UserToggle =>
      match darkModeToggle w with
      | Some c => dispatch_change (with_toggle (mkCheckbox (negb (checked c)) (cb_attrs c)) w)
      | None => w
      end
  | CtrlD =>
      if keydown_listener w then run_listener KeyboardNavigation.onCtrlD w else w
  | OsChange p =>
      let w1 := with_os_pref p w in
      if media_listener w && negb (eqb (matches (os_pref w)) (matches p))
      then run_listener (ThemeManager.onPreferenceChange (matches p)) w1
      else w1
  | TimerFires i =>
      match timers w !! i with
      | Some (_, a) => run_timer a (with_timers (delete i) w)
      | None => w
      end
  end.

Fixpoint run (es : list Event) (w : World) : World :=
  match es with
  | [] => w
  | e :: es' => run es' (step e w)
  end.

(** [n] consecutive calls of a statement. *)
Fixpoint repeat_js (n : nat) (m : JS unit) : JS unit :=
  match n with
  | O => ret ()
  | S n' => m ;; repeat_js n' m
  end.

(** ** Observations *)

(** The surfaces the theme shows on: the [data-theme] attribute of the
    document root, the item stored under ["theme"], [this.currentTheme], and
    the checkbox's [checked] state and [aria-label]. *)
Record Surfaces : Type := mkSurfaces {
  presentation : option string;
  persisted : option string;
  current : string;
  toggle_checked : option bool;
  toggle_label : option string
}.

Definition observe (w : World) : Surfaces :=
  mkSurfaces (root_attrs w !! "data-theme")
             (local_storage w !! "theme")
             (currentTheme w)
             (checked <$> darkModeToggle w)
             (darkModeToggle w ≫= λ c, cb_attrs c !! "aria-label").

(** The other theme: what [toggleTheme] computes for [newTheme]. *)
Definition opposite (t : string) : string :=
  if decide (t = "dark") then "light" else "dark".

Definition valid_theme (v : string) : Prop := v = "light" ∨ v = "dark".

(** A page with the checkbox and its label, and working storage. *)
Definition widget_present (w : World) : Prop := is_Some (darkModeToggle w).
Definition label_present (w : World) : Prop := is_Some (theme_toggle_label w).
Definition storage_functional (w : World) : Prop := storage_mode w = Functional.

Definition normal_page (w : World) : Prop :=
  storage_functional w ∧ widget_present w ∧ label_present w.

(** A user choice is persisted: a truthy item under ["theme"]. *)
Definition choice_persisted (w : World) : Prop :=
  ∃ s, local_storage w !! "theme" = Some s ∧ s ≠ "".

(** Sample pages, as they are before the [DOMContentLoaded] listener runs:
    no attribute on the root, no listener, no timer, an empty console.
    [currentTheme] holds a placeholder; the constructor assigns the field
    before any method reads it. *)
Definition fresh_page (mode : StorageMode) (stored : gmap string string) (p : OsPref)
    (toggle : option Checkbox) (label : option LabelEl) : World :=
  mkWorld ∅ mode stored p toggle label "" false false false [] 0 [].

Definition sample_page : World :=
  fresh_page Functional ∅ PrefersLight (Some (mkCheckbox false ∅)) (Some (mkLabel ∅ [])).

(** The same page with storage access denied, and with no checkbox. *)
Definition denied_page : World :=
  fresh_page AccessDenied ∅ PrefersDark (Some (mkCheckbox false ∅)) (Some (mkLabel ∅ [])).

Definition no_widget_page : World :=
  fresh_page Functional ∅ PrefersLight None (Some (mkLabel ∅ [])).

(** A page whose stored theme is the empty string. *)
Definition empty_string_page : World :=
  fresh_page Functional {["theme" := ""]} PrefersDark
    (Some (mkCheckbox false ∅)) (Some (mkLabel ∅ [])).

(** What [updateToggleState] writes for a theme. *)
Definition aria_label_for (t : string) : string :=
  if decide (t = "dark") then "Switch to light mode" else "Switch to dark mode".

(** The world [setTheme theme] leaves on a page with working storage and
    the checkbox [c]. *)
Definition themed (theme : string) (c : Checkbox) (w : World) : World :=
  mkWorld (<["data-theme":=theme]> (root_attrs w)) (storage_mode w)
    (<["theme":=theme]> (local_storage w)) (os_pref w)
    (Some (mkCheckbox (bool_decide (theme = "dark"))
                      (<["aria-label":=aria_label_for theme]> (cb_attrs c))))
    (theme_toggle_label w) theme (change_listener w) (media_listener w)
    (keydown_listener w) (timers w) (next_node w) (console_errors w).

(** The exception a storage write raises in a failing mode. *)
Definition write_error (m : StorageMode) : Exn :=
  match m with
  | AccessDenied => SecurityError
  | _ => QuotaExceededError
  end.

(** The value of [getStoredTheme() || getPreferredTheme()] on a page whose
    storage can be read. *)
Definition resolved (w : World) : string :=
  match local_storage w !! "theme" with
  | Some s => if decide (s = "") then (if matches (os_pref w) then "dark" else "light") else s
  | None => if matches (os_pref w) then "dark" else "light"
  end.

(** The world [addToggleAnimation] leaves on a page whose label is [l]. *)
Definition animated (l : LabelEl) (w : World) : World :=
  mkWorld (root_attrs w) (storage_mode w) (local_storage w) (os_pref w)
    (darkModeToggle w)
    (Some (mkLabel (<["position":="relative"]> (<["transform":="scale(0.95)"]> (style l)))
                   (ripples l ++ [next_node w])%list))
    (currentTheme w) (change_listener w) (media_listener w) (keydown_listener w)
    ((timers w ++ [(150, ResetScale)]) ++ [(600, RemoveRipple (next_node w))])%list
    (S (next_node w)) (console_errors w).

(** ** Proof automation *)

Ltac js_unfold :=
  unfold ThemeManager.constructor, ThemeManager.init, ThemeManager.resolveInitialTheme,
    ThemeManager.onPreferenceChange, ThemeManager.toggleTheme,
    ThemeManager.addToggleAnimation, ThemeManager.setTheme,
    ThemeManager.updateToggleState, ThemeManager.getPreferredTheme,
    ThemeManager.getStoredTheme, js_or,
    documentElement_setAttribute, localStorage_getItem, localStorage_setItem,
    matchMedia_matches, darkModeToggle_set_checked, darkModeToggle_get_checked,
    darkModeToggle_setAttribute, darkModeToggle_addEventListener,
    matchMedia_addEventListener, toggleLabel_set_style, createElement_ripple,
    toggleLabel_appendChild, setTimeout, get_currentTheme, set_currentTheme,
    bind, ret, throw in *.

(** Call-by-value, so that nested field updates are reduced inside out. *)
Ltac world_fields :=
  cbv [with_root_attrs with_local_storage with_os_pref with_toggle
       with_label with_currentTheme with_change_listener with_media_listener
       with_keydown_listener with_timers with_next_node with_console_error
       root_attrs storage_mode local_storage os_pref darkModeToggle
       theme_toggle_label currentTheme change_listener media_listener
       keydown_listener timers next_node console_errors
       checked cb_attrs style ripples fst snd] in *.

Ltac js_eval := js_unfold; world_fields.

(** * The rest of the page: more of ThemeManager's behaviour, keyboard
      navigation, the navbar, the certificate carousel, the swipe handlers
      and the timing utilities *)

From Stdlib Require Import QArith Qabs.
Close Scope Q_scope.
Local Open Scope list_scope.

(** ** Theme: predicates over whole event traces *)

(** Every surface shows [this.currentTheme]: the [data-theme] attribute, the
    stored item, the checkbox's [checked] state and its [aria-label]. *)
Definition surfaces_agree (w : World) : Prop :=
  ∃ c, darkModeToggle w = Some c ∧
       root_attrs w !! "data-theme" = Some (currentTheme w) ∧
       local_storage w !! "theme" = Some (currentTheme w) ∧
       checked c = bool_decide (currentTheme w = "dark") ∧
       cb_attrs c !! "aria-label" = Some (aria_label_for (currentTheme w)).

(** The ripple nodes that pending timeouts will remove, oldest first. *)
Fixpoint ripple_ids (ts : list (nat * TimerAction)) : list nat :=
  match ts with
  | [] => []
  | (_, RemoveRipple n) :: ts' => n :: ripple_ids ts'
  | (_, ResetScale) :: ts' => ripple_ids ts'
  end.

(** The ripples shown in the label (none when the label is absent). *)
Definition shown_ripples (w : World) : list nat :=
  match theme_toggle_label w with
  | Some l => ripples l
  | None => []
  end.

(** Each ripple in the label has its removal pending, and conversely; node
    ids are not reused. *)
Definition ripples_tracked (w : World) : Prop :=
  shown_ripples w = ripple_ids (timers w) ∧
  NoDup (ripple_ids (timers w)) ∧
  Forall (λ n, n < next_node w) (ripple_ids (timers w)).

(** No listener of the page is registered. *)
Definition no_listeners (w : World) : Prop :=
  change_listener w = false ∧ media_listener w = false ∧ keydown_listener w = false.

(** The part of the world the feedback animation works on. *)
Definition anim_part (w : World) : option LabelEl * list (nat * TimerAction) * nat :=
  (theme_toggle_label w, timers w, next_node w).

(** ** class KeyboardNavigation: the whole 'keydown' listener *)

(** The fields of the keyboard event the listener reads. *)
Record KeyEvent : Type := mkKeyEvent {
  ctrlKey : bool;
  metaKey : bool;
  key : string
}.

(** Focus in the document.  [navLinks] is
    [Array.from(document.querySelectorAll('.nav-link'))]: the elements
    whose class list contains 'nav-link', by node id, in document order.
    [activeElement] is [document.activeElement] ([None] = null).
    [focusable x] tells whether [x.focus()] moves the focus to [x]. *)
Record Focus : Type := mkFocus {
  navLinks : list nat;
  activeElement : option nat;
  focusable : nat → bool
}.

(** [Array.prototype.indexOf]: the index of the first occurrence, -1 when
    there is none. *)
Fixpoint indexOf_from (i : Z) (l : list nat) (x : nat) : Z :=
  match l with
  | [] => (-1)%Z
  | y :: l' => if decide (y = x) then i else indexOf_from (i + 1)%Z l' x
  end.

Definition indexOf (l : list nat) (x : nat) : Z := indexOf_from 0%Z l x.

(** [array[i]] for an integer [i]: [None] (undefined) out of range. *)
Definition at_index {A : Type} (l : list A) (i : Z) : option A :=
  if decide (0 ≤ i)%Z then l !! Z.to_nat i else None.

(** [x.focus()] *)
Definition focus (x : nat) (f : Focus) : Focus :=
  if focusable f x then mkFocus (navLinks f) (Some x) (focusable f) else f.

(** What the 'keydown' listener works on: the theme state, the focus, and
    whether [e.preventDefault()] was called on the event at hand. *)
Record KeyPage : Type := mkKeyPage {
  kp_world : World;
  kp_focus : Focus;
  defaultPrevented : bool
}.

(** [navLinks[index].focus()] after [e.preventDefault()]; TypeError when the
    index is out of range. *)
Definition focus_at (index : Z) (p : KeyPage) : Outcome unit * KeyPage :=
  match at_index (navLinks (kp_focus p)) index with
  | Some x => (Ok (), mkKeyPage (kp_world p) (focus x (kp_focus p)) true)
  | None => (Throw TypeError, mkKeyPage (kp_world p) (kp_focus p) true)
  end.

(** script.js:750-764, the second statement of the listener. *)
Definition onArrowKeys (e : KeyEvent) (p : KeyPage) : Outcome unit * KeyPage :=
  match activeElement (kp_focus p) with
  | None => (Throw TypeError, p)
  | Some a =>
      if decide (a ∈ navLinks (kp_focus p)) then
        let links := navLinks (kp_focus p) in
        let currentIndex := indexOf links a in
        if decide (key e = "ArrowDown" ∨ key e = "ArrowRight") then
          let nextIndex := Z.rem (currentIndex + 1) (Z.of_nat (length links)) in
          focus_at nextIndex p
        else if decide (key e = "ArrowUp" ∨ key e = "ArrowLeft") then
          let prevIndex := if decide (currentIndex = 0)%Z
                           then (Z.of_nat (length links) - 1)%Z
                           else (currentIndex - 1)%Z in
          focus_at prevIndex p
        else (Ok (), p)
      else (Ok (), p)
  end.

(** The condition [(e.ctrlKey || e.metaKey) && e.key === 'd']. *)
Definition is_theme_shortcut (e : KeyEvent) : bool :=
  (ctrlKey e || metaKey e) && bool_decide (key e = "d").

(** script.js:742-765, the listener: the theme shortcut, then the arrow
    keys.  An exception in the first statement ends the listener. *)
Definition onKeydown (e : KeyEvent) (p : KeyPage) : Outcome unit * KeyPage :=
  if is_theme_shortcut e then
    match KeyboardNavigation.onCtrlD (kp_world p) with
    | (Ok _, w') => onArrowKeys e (mkKeyPage w' (kp_focus p) true)
    | (Throw x, w') => (Throw x, mkKeyPage w' (kp_focus p) true)
    end
  else onArrowKeys e p.

(** A key press on a page with the listener installed: a fresh event (its
    default not yet prevented) is handed to the listener; what the
    listener throws is reported on the console. *)
Definition keydown (e : KeyEvent) (p : KeyPage) : KeyPage :=
  match onKeydown e (mkKeyPage (kp_world p) (kp_focus p) false) with
  | (Ok _, p') => p'
  | (Throw x, p') =>
      mkKeyPage (with_console_error x (kp_world p')) (kp_focus p') (defaultPrevented p')
  end.

Fixpoint keydowns (es : list KeyEvent) (p : KeyPage) : KeyPage :=
  match es with
  | [] => p
  | e :: es' => keydowns es' (keydown e p)
  end.

(** The keys that move the focus forwards and backwards. *)
Definition forward_key (k : string) : Prop := k = "ArrowDown" ∨ k = "ArrowRight".
Definition backward_key (k : string) : Prop := k = "ArrowUp" ∨ k = "ArrowLeft".

(** Focus is on the nav link at position [i], and every nav link can take
    the focus. *)
Definition focus_on_link (i : nat) (f : Focus) : Prop :=
  NoDup (navLinks f) ∧
  (∃ a, navLinks f !! i = Some a ∧ activeElement f = Some a) ∧
  (∀ x, x ∈ navLinks f → focusable f x = true).

(** A sample: four nav links, focus on the last. *)
Definition sample_focus : Focus := mkFocus [10; 11; 12; 13] (Some 13) (λ _, true).

Definition sample_key_page : KeyPage :=
  mkKeyPage (DOMContentLoaded None sample_page) sample_focus false.

(** Positions after one step forwards and backwards among [n] links, as
    the listener computes them. *)
Definition next_pos (i n : nat) : nat := (i + 1) mod n.
Definition prev_pos (i n : nat) : nat := if decide (i = 0) then n - 1 else i - 1.

(** The focus moved to the nav link [x]. *)
Definition focus_moved (x : nat) (f : Focus) : Focus :=
  mkFocus (navLinks f) (Some x) (focusable f).

(** ** class NavbarEffects *)

(** A [section[id]] element: [offsetTop] and [clientHeight] (integers, in
    CSS pixels) and its [id] attribute. *)
Record Section : Type := mkSection {
  offsetTop : Z;
  clientHeight : Z;
  section_id : string
}.

(** A [.navbar-nav .nav-link] element: its [href] attribute ([None] when
    [getAttribute('href')] is null) and its class list. *)
Record NavLink : Type := mkNavLink {
  href : option string;
  classList : gset string
}.

(** What [NavbarEffects] reads and writes.  Scroll offsets are JavaScript
    numbers, possibly fractional: rationals here.  [navbar] holds
    [navbar.style.boxShadow], [None] when the global [navbar] is null. *)
Record ScrollPage : Type := mkScrollPage {
  pageYOffset : Q;
  documentElement_scrollTop : Q;
  navbar : option string;
  sections : list Section;
  nav_links : list NavLink;
  lastScrollTop : Q
}.

(** [a < b] on numbers. *)
Definition Qlt_bool (a b : Q) : bool := negb (Qle_bool b a).

(** The test of script.js:242 for one section. *)
Definition in_view (y : Q) (s : Section) : bool :=
  let sectionTop := (offsetTop s - 100)%Z in
  Qle_bool (inject_Z sectionTop) y &&
  Qlt_bool y (inject_Z (sectionTop + clientHeight s)).

(** The [sections.forEach] loop of script.js:235-245: [currentSection]
    after each section in turn. *)
Definition currentSection (y : Q) (ss : list Section) : string :=
  fold_left (λ cur s, if in_view y s then section_id s else cur) ss "".

(** The body of the [navLinks.forEach] loop, script.js:249-252. *)
Definition update_link (cur : string) (l : NavLink) : NavLink :=
  let removed := classList l ∖ {["active"]} in
  mkNavLink (href l)
    (if decide (href l = Some ("#" +:+ cur)) then removed ∪ {["active"]} else removed).

Module NavbarEffects.

(** script.js:231-254 *)
Definition updateActiveNavLink (p : ScrollPage) : ScrollPage :=
  let cur := currentSection (pageYOffset p) (sections p) in
  mkScrollPage (pageYOffset p) (documentElement_scrollTop p) (navbar p) (sections p)
    (update_link cur <$> nav_links p) (lastScrollTop p).

(** script.js:211-225.  [window.pageYOffset || documentElement.scrollTop]
    takes the second operand when the first is 0. *)
Definition handleScroll (p : ScrollPage) : Outcome unit * ScrollPage :=
  let scrollTop := if Qeq_bool (pageYOffset p) 0 then documentElement_scrollTop p
                   else pageYOffset p in
  match navbar p with
  | None => (Throw TypeError, p)
  | Some _ =>
      let shadow := if Qlt_bool 50 scrollTop then "0 2px 20px var(--shadow-light)"
                    else "none" in
      let p1 := updateActiveNavLink
                  (mkScrollPage (pageYOffset p) (documentElement_scrollTop p) (Some shadow)
                     (sections p) (nav_links p) (lastScrollTop p)) in
      (Ok (), mkScrollPage (pageYOffset p1) (documentElement_scrollTop p1) (navbar p1)
                (sections p1) (nav_links p1) scrollTop)
  end.

End NavbarEffects.

(** The number [handleScroll] works with, and the shadow it sets. *)
Definition effective_scrollTop (p : ScrollPage) : Q :=
  if Qeq_bool (pageYOffset p) 0 then documentElement_scrollTop p else pageYOffset p.

Definition shadow_for (scrollTop : Q) : string :=
  if Qlt_bool 50 scrollTop then "0 2px 20px var(--shadow-light)" else "none".

(** The page [handleScroll] leaves when the navbar exists. *)
Definition scrolled (p : ScrollPage) : ScrollPage :=
  mkScrollPage (pageYOffset p) (documentElement_scrollTop p)
    (Some (shadow_for (effective_scrollTop p))) (sections p)
    (update_link (currentSection (pageYOffset p) (sections p)) <$> nav_links p)
    (effective_scrollTop p).

(** The last section, in document order, that the scroll offset [y] lies
    in. *)
Definition last_in_view (y : Q) (ss : list Section) : option Section :=
  last (filter (λ s, in_view y s = true) ss).

(** Sections laid out one below the other: none starts above the end of an
    earlier one. *)
Definition stacked (ss : list Section) : Prop :=
  ∀ i j si sj, ss !! i = Some si → ss !! j = Some sj → i < j →
    (offsetTop si + clientHeight si ≤ offsetTop sj)%Z.

(** A sample page: three stacked sections, three links, scrolled into the
    second section. *)
Definition sample_scroll_page : ScrollPage :=
  mkScrollPage (inject_Z 700) (inject_Z 700) (Some "")
    [mkSection 0 600 "home"; mkSection 600 800 "about"; mkSection 1400 500 "contact"]
    [mkNavLink (Some "#home") {["nav-link"; "active"]};
     mkNavLink (Some "#about") {["nav-link"]};
     mkNavLink (Some "#contact") {["nav-link"]}]
    (inject_Z 0).

(** ** class CertificateCarouselEffects *)

(** Calls made on a [bootstrap.Carousel] object.  Bootstrap is not part of
    this repository: the calls are recorded, not interpreted. *)
Inductive CarouselCall : Type :=
  | CarouselCycle
  | CarouselPause
  | CarouselPrev
  | CarouselNext
  | CarouselTo (index : nat).

(** The carousel's DOM: its [.carousel-item] elements (node id and class
    list, in document order) and the class lists of the [.indicator-line]
    elements captured by [addHorizontalIndicators]. *)
Record CarouselDom : Type := mkCarouselDom {
  items : list (nat * gset string);
  indicators : list (gset string)
}.

(** [querySelector('.carousel-item.active')]: the first item whose class
    list contains 'active', or null. *)
Definition querySelector_active (its : list (nat * gset string)) : option nat :=
  fst <$> head (filter (λ it, "active" ∈ it.2) its).

(** [Array.from(querySelectorAll('.carousel-item')).indexOf(x)] for [x] an
    element or null. *)
Definition indexOf_element (its : list (nat * gset string)) (x : option nat) : Z :=
  match x with
  | Some a => indexOf (fst <$> its) a
  | None => (-1)%Z
  end.

(** [if (indicators[activeIndex]) indicators[activeIndex].classList.add('active')] *)
Definition activate_indicator (activeIndex : Z) (inds : list (gset string))
    : list (gset string) :=
  match at_index inds activeIndex with
  | Some c => <[Z.to_nat activeIndex := c ∪ {["active"]}]> inds
  | None => inds
  end.

(** The 'slid.bs.carousel' listener, script.js:396-406. *)
Definition onSlid (d : CarouselDom) : CarouselDom :=
  let activeIndex := indexOf_element (items d) (querySelector_active (items d)) in
  let cleared := (λ c, c ∖ {["active"]}) <$> indicators d in
  mkCarouselDom (items d) (activate_indicator activeIndex cleared).

(** The position of the first item that is 'active'. *)
Definition first_active (its : list (nat * gset string)) : option nat :=
  fst <$> list_find (λ it, "active" ∈ it.2) its.

(** The [data-*] attributes of a certificate card ([None] = undefined). *)
Record CertCard : Type := mkCertCard {
  certificate : option string;
  title : option string;
  issuer : option string;
  date : option string
}.

(** The modal's elements ([None] = [getElementById] returned null): the
    image's [src] and [alt], and the [textContent] of the three text
    elements; the carousel ([None] = [this.carousel] is null) with the calls
    made on it; and the number of [bootstrapModal.show()] calls. *)
Record ModalDom : Type := mkModalDom {
  modalImage : option (string * string);
  modalTitle : option string;
  modalIssuer : option string;
  modalDate : option string;
  carousel : option (list CarouselCall);
  modal_shown : nat
}.

(** Truthiness of a string or undefined. *)
Definition truthy (v : option string) : bool :=
  match v with
  | Some s => negb (String.eqb s "")
  | None => false
  end.

(** The string a DOM string attribute receives from a JavaScript value. *)
Definition to_DOMString (v : option string) : string := default "undefined" v.

(** [if (this.carousel) this.carousel.<call>()] *)
Definition carousel_call (c : CarouselCall) (car : option (list CarouselCall))
    : option (list CarouselCall) :=
  (λ calls, calls ++ [c]) <$> car.

(** [if (el && v) el.textContent = text] *)
Definition set_text_if (el : option string) (v : option string) (text : string)
    : option string :=
  match el with
  | Some old => Some (if truthy v then text else old)
  | None => None
  end.

(** [openCertificateModal], script.js:434-472, for the card's data. *)
Definition openCertificateModal (card : CertCard) (m : ModalDom) : ModalDom :=
  mkModalDom
    (match modalImage m with
     | Some (src, alt) =>
         if truthy (certificate card)
         then Some ("assets/" +:+ default "" (certificate card), to_DOMString (title card))
         else Some (src, alt)
     | None => None
     end)
    (set_text_if (modalTitle m) (title card) (default "" (title card)))
    (set_text_if (modalIssuer m) (issuer card) ("Issued by: " +:+ default "" (issuer card)))
    (set_text_if (modalDate m) (date card) ("Completed: " +:+ default "" (date card)))
    (carousel_call CarouselPause (carousel m))
    (S (modal_shown m)).

(** The 'hidden.bs.modal' listener, script.js:498-508. *)
Definition onModalHidden (m : ModalDom) : ModalDom :=
  mkModalDom
    (match modalImage m with Some (_, alt) => Some ("", alt) | None => None end)
    ((λ _, "") <$> modalTitle m)
    ((λ _, "") <$> modalIssuer m)
    ((λ _, "") <$> modalDate m)
    (carousel_call CarouselCycle (carousel m))
    (modal_shown m).

(** Opening the cards of a list one after the other. *)
Definition open_all (cards : list CertCard) (m : ModalDom) : ModalDom :=
  foldl (λ m card, openCertificateModal card m) m cards.

(** What the modal shows: the image source and the three texts. *)
Definition modal_content (m : ModalDom)
    : option string * option string * option string * option string :=
  (fst <$> modalImage m, modalTitle m, modalIssuer m, modalDate m).

(** What the modal is to show for a card, on a page that has all four
    elements: the card's own data, and nothing for a missing field. *)
Definition card_content (card : CertCard)
    : option string * option string * option string * option string :=
  (Some (if truthy (certificate card) then "assets/" +:+ default "" (certificate card) else ""),
   Some (if truthy (title card) then default "" (title card) else ""),
   Some (if truthy (issuer card) then "Issued by: " +:+ default "" (issuer card) else ""),
   Some (if truthy (date card) then "Completed: " +:+ default "" (date card) else "")).

(** ** The utilities [debounce] and [throttle] *)

(** A pending timeout set by a debounced function: its id, its delay and
    the arguments its [later] callback captured. *)
Record Timer (A : Type) : Type := mkTimer {
  timer_id : nat;
  timer_delay : nat;
  timer_args : A
}.
Arguments mkTimer {A} _ _ _.
Arguments timer_id {A} _.
Arguments timer_delay {A} _.
Arguments timer_args {A} _.

(** The state behind one function returned by [debounce(func, wait)]: the
    closure variable [timeout] ([None] = undefined), the browser's pending
    timeouts set by this closure, the id the next [setTimeout] returns, and
    the calls [func(...args)] made so far, oldest first.  When a pending
    timeout fires is the browser's choice: firing is an event. *)
Record Debounced (A : Type) : Type := mkDebounced {
  db_timeout : option nat;
  db_pending : list (Timer A);
  db_next : nat;
  db_invoked : list A
}.
Arguments mkDebounced {A} _ _ _ _.
Arguments db_timeout {A} _.
Arguments db_pending {A} _.
Arguments db_next {A} _.
Arguments db_invoked {A} _.

(** [clearTimeout(timeout)]: nothing for undefined or an id not pending. *)
Definition clearTimeout {A : Type} (timeout : option nat) (ts : list (Timer A))
    : list (Timer A) :=
  match timeout with
  | Some id => filter (λ t, timer_id t ≠ id) ts
  | None => ts
  end.

(** [executedFunction(...args)], script.js:964-971. *)
Definition executedFunction {A : Type} (wait : nat) (args : A) (s : Debounced A)
    : Debounced A :=
  let pending := clearTimeout (db_timeout s) (db_pending s) in
  mkDebounced (Some (db_next s))
    (pending ++ [mkTimer (db_next s) wait args])
    (S (db_next s))
    (db_invoked s).

(** The timeout [id] fires: its callback [later] (script.js:965-968) runs,
    if the timeout is still pending. *)
Definition later_fires {A : Type} (id : nat) (s : Debounced A) : Debounced A :=
  match list_find (λ t, timer_id t = id) (db_pending s) with
  | Some (_, t) =>
      let rest := filter (λ t', timer_id t' ≠ id) (db_pending s) in
      mkDebounced (db_timeout s) (clearTimeout (db_timeout s) rest) (db_next s)
        (db_invoked s ++ [timer_args t])
  | None => s
  end.

Inductive DebounceEvent (A : Type) : Type :=
  | DbCall (args : A)    (* the debounced function is called *)
  | DbFire (id : nat).   (* the browser runs the timeout [id] *)
Arguments DbCall {A} _.
Arguments DbFire {A} _.

Definition debounce_step {A : Type} (wait : nat) (e : DebounceEvent A) (s : Debounced A)
    : Debounced A :=
  match e with
  | DbCall args => executedFunction wait args s
  | DbFire id => later_fires id s
  end.

Definition debounce_run {A : Type} (wait : nat) (es : list (DebounceEvent A))
    (s : Debounced A) : Debounced A :=
  foldl (λ s e, debounce_step wait e s) s es.

(** [debounce(func, wait)] just returned: [timeout] is undefined. *)
Definition debounce {A : Type} (next : nat) : Debounced A := mkDebounced None [] next [].

(** The arguments of the calls in a trace, in order. *)
Definition call_args {A : Type} (es : list (DebounceEvent A)) : list A :=
  omap (λ e, match e with DbCall a => Some a | DbFire _ => None end) es.

(** The state behind one function returned by [throttle(func, limit)]:
    [inThrottle] (undefined counts as false), the pending reset timeouts,
    the next timer id, and the calls made to [func]. *)
Record Throttled (A : Type) : Type := mkThrottled {
  th_inThrottle : bool;
  th_pending : list nat;
  th_next : nat;
  th_invoked : list A
}.
Arguments mkThrottled {A} _ _ _ _.
Arguments th_inThrottle {A} _.
Arguments th_pending {A} _.
Arguments th_next {A} _.
Arguments th_invoked {A} _.

(** The function [throttle] returns, script.js:977-985.  [func] tells
    whether the throttled function throws on given arguments; if it does,
    the exception leaves the function before [inThrottle] is set. *)
Definition throttled {A : Type} (func : A → option Exn) (args : A) (s : Throttled A)
    : Outcome unit * Throttled A :=
  if th_inThrottle s then (Ok (), s)
  else
    match func args with
    | Some x =>
        (Throw x, mkThrottled (th_inThrottle s) (th_pending s) (th_next s)
                    (th_invoked s ++ [args]))
    | None =>
        (Ok (), mkThrottled true (th_pending s ++ [th_next s]) (S (th_next s))
                  (th_invoked s ++ [args]))
    end.

(** The reset timeout [id] fires: [inThrottle = false]. *)
Definition reset_fires {A : Type} (id : nat) (s : Throttled A) : Throttled A :=
  if decide (id ∈ th_pending s)
  then mkThrottled false (filter (λ k, k ≠ id) (th_pending s)) (th_next s) (th_invoked s)
  else s.

Inductive ThrottleEvent (A : Type) : Type :=
  | ThCall (args : A)
  | ThFire (id : nat).
Arguments ThCall {A} _.
Arguments ThFire {A} _.

Definition throttle_step {A : Type} (func : A → option Exn) (e : ThrottleEvent A)
    (s : Throttled A) : Throttled A :=
  match e with
  | ThCall args => snd (throttled func args s)
  | ThFire id => reset_fires id s
  end.

Definition throttle_run {A : Type} (func : A → option Exn) (es : list (ThrottleEvent A))
    (s : Throttled A) : Throttled A :=
  foldl (λ s e, throttle_step func e s) s es.

(** [throttle(func, limit)] just returned. *)
Definition throttle {A : Type} (next : nat) : Throttled A := mkThrottled false [] next [].

(** The reset timeouts that fired in a trace, and the calls of [func] that
    returned. *)
Fixpoint fire_count {A : Type} (es : list (ThrottleEvent A)) : nat :=
  match es with
  | [] => 0
  | ThFire _ :: es' => S (fire_count es')
  | ThCall _ :: es' => fire_count es'
  end.

Definition returned_calls {A : Type} (func : A → option Exn) (l : list A) : list A :=
  filter (λ a, func a = None) l.

(** The invariant of a debounced function, for the arguments [cs] of the
    calls made so far: either no timeout is pending and every invocation of
    [func] took its arguments, in order, from those calls; or exactly one
    is pending, [timeout] names it, it carries the arguments of the last
    call, and the invocations took theirs from the calls before that. *)
Definition debounce_inv {A : Type} (wait : nat) (s : Debounced A) (cs : list A) : Prop :=
  (db_pending s = [] ∧ sublist (db_invoked s) cs) ∨
  (∃ id a cs', db_pending s = [mkTimer id wait a] ∧ db_timeout s = Some id ∧
               cs = cs' ++ [a] ∧ sublist (db_invoked s) cs').

(** The invariant of a throttled function after [n] timeout events:
    [inThrottle] is set exactly while one reset timeout is pending, and the
    calls of [func] that returned number at most [n] plus the pending
    timeouts. *)
Definition throttle_inv {A : Type} (func : A → option Exn) (s : Throttled A) (n : nat)
    : Prop :=
  ((th_inThrottle s = false ∧ th_pending s = []) ∨
   (th_inThrottle s = true ∧ ∃ id, th_pending s = [id])) ∧
  (length (returned_calls func (th_invoked s)) ≤ n + length (th_pending s))%nat.

(** ** class ProjectsCarousel *)

(** The error a read of an undeclared variable raises. *)
Inductive ScopeError : Type := ReferenceError (name : string).

(** The state of the swipe support.  [startX], [endX] and [isMouseDown] are
    the [let] variables of [addSwipeSupport] (script.js:801-814), which
    its listeners capture.  The method [handleSwipe] is outside their
    scope: the names [startX] and [endX] in its body (script.js:836) refer
    to global variables, which script.js does not declare;
    [global_startX] and [global_endX] hold their values should another
    script define them as numbers.  Coordinates are rationals; the rounding
    of the floating-point subtraction is not modelled. *)
Record SwipePage : Type := mkSwipePage {
  startX : Q;
  endX : Q;
  isMouseDown : bool;
  global_startX : option Q;
  global_endX : option Q;
  swipe_calls : list CarouselCall;   (* calls made on this.carousel *)
  swipe_errors : list ScopeError     (* uncaught errors of the listeners *)
}.

Module ProjectsCarousel.

(** script.js:834-847 *)
Definition handleSwipe (s : SwipePage) : (ScopeError + unit) * SwipePage :=
  match global_startX s with
  | None => (inl (ReferenceError "startX"), s)
  | Some gs =>
      match global_endX s with
      | None => (inl (ReferenceError "endX"), s)
      | Some ge =>
          let diff := (gs - ge)%Q in
          if Qlt_bool 50 (Qabs diff) then
            let call := if Qlt_bool 0 diff then CarouselNext else CarouselPrev in
            (inr (), mkSwipePage (startX s) (endX s) (isMouseDown s)
                       (global_startX s) (global_endX s)
                       (swipe_calls s ++ [call]) (swipe_errors s))
          else (inr (), s)
      end
  end.

End ProjectsCarousel.

(** The events [addSwipeSupport] listens to, with the [clientX] of the
    touch or of the mouse. *)
Inductive SwipeEvent : Type :=
  | TouchStart (x : Q)
  | TouchEnd (x : Q)
  | MouseDown (x : Q)
  | MouseUp (x : Q)
  | MouseLeave.

(** An uncaught error of a listener is reported; what the listener did
    before stays. *)
Definition report_swipe (r : (ScopeError + unit) * SwipePage) (after : SwipePage → SwipePage)
    : SwipePage :=
  match r with
  | (inl e, s) => mkSwipePage (startX s) (endX s) (isMouseDown s)
                    (global_startX s) (global_endX s) (swipe_calls s)
                    (swipe_errors s ++ [e])
  | (inr _, s) => after s
  end.

(** The five listeners of script.js:804-831. *)
Definition swipe_step (e : SwipeEvent) (s : SwipePage) : SwipePage :=
  match e with
  | TouchStart x =>
      mkSwipePage x (endX s) (isMouseDown s) (global_startX s) (global_endX s)
        (swipe_calls s) (swipe_errors s)
  | TouchEnd x =>
      report_swipe
        (ProjectsCarousel.handleSwipe
           (mkSwipePage (startX s) x (isMouseDown s) (global_startX s) (global_endX s)
              (swipe_calls s) (swipe_errors s)))
        (λ s', s')
  | MouseDown x =>
      mkSwipePage x (endX s) true (global_startX s) (global_endX s)
        (swipe_calls s) (swipe_errors s)
  | MouseUp x =>
      if isMouseDown s then
        report_swipe
          (ProjectsCarousel.handleSwipe
             (mkSwipePage (startX s) x (isMouseDown s) (global_startX s) (global_endX s)
                (swipe_calls s) (swipe_errors s)))
          (λ s', mkSwipePage (startX s') (endX s') false (global_startX s')
                   (global_endX s') (swipe_calls s') (swipe_errors s'))
      else s
  | MouseLeave =>
      mkSwipePage (startX s) (endX s) false (global_startX s) (global_endX s)
        (swipe_calls s) (swipe_errors s)
  end.

Definition swipe_run (es : list SwipeEvent) (s : SwipePage) : SwipePage :=
  foldl (λ s e, swipe_step e s) s es.

(** The state [addSwipeSupport] starts from on a page where no script
    defines the globals. *)
Definition swipe_init : SwipePage := mkSwipePage 0 0 false None None [] [].

(** The options passed to [new bootstrap.Carousel]. *)
Record CarouselOptions : Type := mkCarouselOptions {
  interval : nat;
  wrap : bool;
  keyboard : bool;
  pause : option string;   (* [None] is [false] *)
  ride : string
}.

(** script.js:874-880 and 884-890 *)
Definition mobile_options : CarouselOptions :=
  mkCarouselOptions 3000 true false None "carousel".
Definition desktop_options : CarouselOptions :=
  mkCarouselOptions 4000 true true (Some "hover") "carousel".

(** What [addResponsiveBehavior] works on: [window.innerWidth], the options
    of the current [this.carousel], the number of carousels disposed of, and
    the state of [debounce(updateCarouselBehavior, 250)]. *)
Record ResizePage : Type := mkResizePage {
  innerWidth : Z;
  carousel_options : CarouselOptions;
  disposed : nat;
  resize_debounced : Debounced unit
}.

(** script.js:868-892 *)
Definition updateCarouselBehavior (p : ResizePage) : ResizePage :=
  let isMobile := bool_decide (innerWidth p < 768)%Z in
  mkResizePage (innerWidth p)
    (if isMobile then mobile_options else desktop_options)
    (S (disposed p))
    (resize_debounced p).

Inductive ResizeEvent : Type :=
  | Resize (width : Z)    (* the window is resized to this width *)
  | TimeoutFires (id : nat).

(** The 'resize' listener is the debounced function (script.js:895); when
    its timeout fires, [later] calls [updateCarouselBehavior]. *)
Definition resize_step (e : ResizeEvent) (p : ResizePage) : ResizePage :=
  match e with
  | Resize w =>
      mkResizePage w (carousel_options p) (disposed p)
        (executedFunction 250 () (resize_debounced p))
  | TimeoutFires id =>
      match list_find (λ t, timer_id t = id) (db_pending (resize_debounced p)) with
      | Some _ =>
          updateCarouselBehavior
            (mkResizePage (innerWidth p) (carousel_options p) (disposed p)
               (later_fires id (resize_debounced p)))
      | None => p
      end
  end.

Definition resize_run (es : list ResizeEvent) (p : ResizePage) : ResizePage :=
  foldl (λ p e, resize_step e p) p es.

(** The page when [addResponsiveBehavior] has returned. *)
Definition resize_init (width : Z) (next : nat) : ResizePage :=
  mkResizePage width desktop_options 0 (debounce next).

(** A trace as the debounced function sees it. *)
Definition debounce_events (es : list ResizeEvent) : list (DebounceEvent unit) :=
  (λ e, match e with Resize _ => DbCall () | TimeoutFires id => DbFire id end) <$> es.

(** ** Two 'keydown' listeners on the document *)

(** The listener [CertificateCarouselEffects.addKeyboardNavigation] adds
    (script.js:339-352), on the carousel's call log ([None] = no carousel)
    and the event's [defaultPrevented] flag. *)
Definition onCarouselKeydown (e : KeyEvent) (car : option (list CarouselCall))
    (prevented : bool) : option (list CarouselCall) * bool :=
  match car with
  | None => (None, prevented)
  | Some calls =>
      if decide (key e = "ArrowLeft") then (Some (calls ++ [CarouselPrev]), true)
      else if decide (key e = "ArrowRight") then (Some (calls ++ [CarouselNext]), true)
      else (Some calls, prevented)
  end.

(** The page as the document's 'keydown' listeners see it. *)
Record DocPage : Type := mkDocPage {
  doc_keys : KeyPage;
  cert_carousel : option (list CarouselCall)
}.

(** A key press reaches the document of a page on which both listeners
    are installed: they run in the order they were added, the certificate
    carousel's (added by the fifth component of the initializer) before
    [KeyboardNavigation]'s (added by the last). *)
Definition document_keydown (e : KeyEvent) (d : DocPage) : DocPage :=
  let '(car, prevented) := onCarouselKeydown e (cert_carousel d) false in
  let p := doc_keys d in
  match onKeydown e (mkKeyPage (kp_world p) (kp_focus p) prevented) with
  | (Ok _, p') => mkDocPage p' car
  | (Throw x, p') =>
      mkDocPage (mkKeyPage (with_console_error x (kp_world p')) (kp_focus p')
                   (defaultPrevented p')) car
  end.

(** The carousel calls an arrow key causes. *)
Definition carousel_calls_for (k : string) : list CarouselCall :=
  if decide (k = "ArrowLeft") then [CarouselPrev]
  else if decide (k = "ArrowRight") then [CarouselNext]
  else [].

(** ** [setTheme], case by case *)

Lemma setTheme_functional (theme : string) (w : World) (c : Checkbox) :
  storage_mode w = Functional →
  darkModeToggle w = Some c →
  ThemeManager.setTheme theme w = (Ok (), themed theme c w).
Proof.
  intros Hs Hc. destruct w; js_eval. subst.
  unfold themed, aria_label_for. world_fields.
  case_decide.
  - rewrite bool_decide_eq_true_2 by done. reflexivity.
  - rewrite bool_decide_eq_false_2 by done. reflexivity.
Qed.

Lemma setTheme_no_widget (theme : string) (w : World) :
  storage_mode w = Functional →
  darkModeToggle w = None →
  ThemeManager.setTheme theme w =
    (Throw TypeError,
     with_currentTheme theme
       (with_local_storage (insert "theme" theme)
          (with_root_attrs (insert "data-theme" theme) w))).
Proof.
  intros Hs Hc. destruct w; js_eval. subst. by case_decide.
Qed.

Lemma setTheme_storage_failure (theme : string) (w : World) :
  storage_mode w ≠ Functional →
  ThemeManager.setTheme theme w =
    (Throw (write_error (storage_mode w)),
     with_root_attrs (insert "data-theme" theme) w).
Proof.
  intros Hs. destruct w as [? m ? ? ? ? ? ? ? ? ? ? ?]; js_eval.
  destruct m; [done|reflexivity..].
Qed.

Lemma themed_themed (theme : string) (c c' : Checkbox) (w : World) :
  c' = mkCheckbox (bool_decide (theme = "dark"))
         (<["aria-label":=aria_label_for theme]> (cb_attrs c)) →
  themed theme c' (themed theme c w) = themed theme c w.
Proof.
  intros ->. unfold themed. world_fields.
  by rewrite !insert_insert_eq.
Qed.

(** ** [setTheme]: consistent surfaces, idempotence *)

(** C1. On a page with working storage and the toggle checkbox, after
    [setTheme v] with [v] one of "light" and "dark", the call has
    returned and every surface shows [v]: the [data-theme] attribute of the
    document root is [v], the item stored under "theme" is [v],
    [this.currentTheme] is [v], the checkbox is checked exactly when [v] is
    "dark", and its [aria-label] is "Switch to light mode" for "dark" and
    "Switch to dark mode" for "light". *)
Theorem setTheme_surfaces_consistent (w : World) (v : string) :
  storage_functional w →
  widget_present w →
  valid_theme v →
  ∃ w' c',
    ThemeManager.setTheme v w = (Ok (), w') ∧
    root_attrs w' !! "data-theme" = Some v ∧
    local_storage w' !! "theme" = Some v ∧
    currentTheme w' = v ∧
    darkModeToggle w' = Some c' ∧
    (checked c' = true ↔ v = "dark") ∧
    (v = "dark" → cb_attrs c' !! "aria-label" = Some "Switch to light mode") ∧
    (v = "light" → cb_attrs c' !! "aria-label" = Some "Switch to dark mode").
Proof.
  intros Hs [c Hc] Hv.
  eexists _, _. split; [by apply setTheme_functional|].
  unfold themed; world_fields.
  repeat split.
  - apply lookup_insert_eq.
  - apply lookup_insert_eq.
  - apply bool_decide_eq_true_1.
  - apply bool_decide_eq_true_2.
  - intros ->. world_fields. by rewrite lookup_insert_eq.
  - intros ->. world_fields. by rewrite lookup_insert_eq.
Qed.

Lemma setTheme_surfaces_consistent_witness :
  ∃ w' c',
    ThemeManager.setTheme "dark" sample_page = (Ok (), w') ∧
    root_attrs w' !! "data-theme" = Some "dark" ∧
    local_storage w' !! "theme" = Some "dark" ∧
    currentTheme w' = "dark" ∧
    darkModeToggle w' = Some c' ∧
    (checked c' = true ↔ "dark" = "dark") ∧
    ("dark" = "dark" → cb_attrs c' !! "aria-label" = Some "Switch to light mode") ∧
    ("dark" = "light" → cb_attrs c' !! "aria-label" = Some "Switch to dark mode").
Proof.
  apply (setTheme_surfaces_consistent sample_page "dark").
  - reflexivity.
  - exists (mkCheckbox false ∅). reflexivity.
  - right. reflexivity.
Defined.

(** C7. [setTheme] is idempotent: calling [setTheme v] a second time, on
    the world the first call left, returns the same outcome and leaves
    that world as it is; so do two calls in sequence.  In particular the
    observable surfaces after two calls are those after one. *)
Theorem setTheme_idempotent (w : World) (v : string) :
  ThemeManager.setTheme v (snd (ThemeManager.setTheme v w)) = ThemeManager.setTheme v w ∧
  (ThemeManager.setTheme v ;; ThemeManager.setTheme v) w = ThemeManager.setTheme v w ∧
  observe (snd ((ThemeManager.setTheme v ;; ThemeManager.setTheme v) w)) =
    observe (snd (ThemeManager.setTheme v w)).
Proof.
  assert (H1 : ThemeManager.setTheme v (snd (ThemeManager.setTheme v w))
               = ThemeManager.setTheme v w).
  { destruct (decide (storage_mode w = Functional)) as [Hs|Hs].
    - destruct (darkModeToggle w) as [c|] eqn:Hc.
      + rewrite (setTheme_functional v w c) by done. cbn [snd].
        erewrite setTheme_functional; [|done|reflexivity].
        by rewrite themed_themed.
      + rewrite (setTheme_no_widget v w) by done. cbn [snd].
        rewrite setTheme_no_widget by done.
        destruct w; world_fields. by rewrite !insert_insert_eq.
    - rewrite (setTheme_storage_failure v w) by done. cbn [snd].
      rewrite setTheme_storage_failure by (by destruct w).
      destruct w; world_fields. by rewrite !insert_insert_eq. }
  assert (H2 : (ThemeManager.setTheme v ;; ThemeManager.setTheme v) w
               = ThemeManager.setTheme v w).
  { unfold bind at 1. revert H1.
    destruct (ThemeManager.setTheme v w) as [[[]|e] w'] eqn:E; cbn [snd]; done. }
  split; [exact H1|]. split; [exact H2|]. by rewrite H2.
Qed.

(** ** Frame facts: what the theme code leaves alone *)

Lemma setTheme_storage_mode (v : string) (w : World) :
  storage_mode (snd (ThemeManager.setTheme v w)) = storage_mode w.
Proof.
  destruct w as [? m ? ? t ? ? ? ? ? ? ? ?]; js_eval.
  destruct m, t; world_fields; by repeat (case_decide; world_fields).
Qed.

Lemma addToggleAnimation_storage (w : World) :
  storage_mode (snd (ThemeManager.addToggleAnimation w)) = storage_mode w ∧
  local_storage (snd (ThemeManager.addToggleAnimation w)) = local_storage w.
Proof.
  destruct w as [? ? ? ? ? l ? ? ? ? ? ? ?]; js_eval.
  by destruct l.
Qed.

Lemma toggleTheme_storage_mode (w : World) :
  storage_mode (snd (ThemeManager.toggleTheme w)) = storage_mode w.
Proof.
  pose proof (setTheme_storage_mode (opposite (currentTheme w)) w) as H1.
  unfold ThemeManager.toggleTheme, get_currentTheme, bind at 1 2.
  fold (opposite (currentTheme w)).
  destruct (ThemeManager.setTheme _ w) as [[[]|e] w1]; cbn [snd] in *; [|done].
  by rewrite (proj1 (addToggleAnimation_storage w1)).
Qed.

(** After [setTheme v], the stored item is either what it was or [v]. *)
Lemma setTheme_stored (v : string) (w : World) :
  let w' := snd (ThemeManager.setTheme v w) in
  (storage_mode w = Functional → local_storage w' !! "theme" = Some v) ∧
  (storage_mode w ≠ Functional → local_storage w' = local_storage w).
Proof.
  destruct w as [? m ? ? t ? ? ? ? ? ? ? ?]; js_eval.
  destruct m, t; world_fields; split; intros; try done;
    repeat (case_decide; world_fields); by rewrite ?lookup_insert_eq.
Qed.

Lemma opposite_nonempty (t : string) : opposite t ≠ "".
Proof. unfold opposite. by case_decide. Qed.

Lemma opposite_valid (t : string) : valid_theme (opposite t).
Proof. unfold opposite, valid_theme. case_decide; auto. Qed.

Lemma opposite_involutive (v : string) : valid_theme v → opposite (opposite v) = v.
Proof. by intros [-> | ->]. Qed.

Lemma opposite_differs (v : string) : opposite v ≠ v.
Proof. unfold opposite. case_decide; [by subst|congruence]. Qed.

Lemma toggleTheme_stored (w : World) :
  let w' := snd (ThemeManager.toggleTheme w) in
  (storage_mode w = Functional →
     local_storage w' !! "theme" = Some (opposite (currentTheme w))) ∧
  (storage_mode w ≠ Functional → local_storage w' = local_storage w).
Proof.
  pose proof (setTheme_stored (opposite (currentTheme w)) w) as H1.
  cbn zeta in *.
  unfold ThemeManager.toggleTheme, get_currentTheme, bind at 1 2 3 4.
  fold (opposite (currentTheme w)).
  destruct (ThemeManager.setTheme _ w) as [[[]|e] w1]; cbn [snd] in *; [|done].
  by rewrite (proj2 (addToggleAnimation_storage w1)).
Qed.

Lemma toggleTheme_keeps_choice (w : World) :
  choice_persisted w → choice_persisted (snd (ThemeManager.toggleTheme w)).
Proof.
  intros Hp. destruct (toggleTheme_stored w) as [H1 H2].
  destruct (decide (storage_mode w = Functional)) as [Hs|Hs].
  - exists (opposite (currentTheme w)). split; [by apply H1|apply opposite_nonempty].
  - unfold choice_persisted. by rewrite H2.
Qed.

(** With a persisted choice the media-query listener changes nothing. *)
Lemma onPreferenceChange_persisted (b : bool) (w : World) :
  choice_persisted w →
  snd (ThemeManager.onPreferenceChange b w) = w ∧
  (storage_mode w ≠ AccessDenied → ThemeManager.onPreferenceChange b w = (Ok (), w)).
Proof.
  intros (s & Hs & Hne).
  destruct w as [? m ls ? ? ? ? ? ? ? ? ? ?].
  unfold ThemeManager.onPreferenceChange, ThemeManager.getStoredTheme,
    localStorage_getItem, bind, ret. world_fields.
  destruct m; rewrite ?Hs; try (by rewrite decide_False by done); done.
Qed.

Lemma try_catch_log_storage (m : JS unit) (w : World) :
  storage_mode (try_catch_log m w) = storage_mode (snd (m w)) ∧
  local_storage (try_catch_log m w) = local_storage (snd (m w)).
Proof. unfold try_catch_log. by destruct (m w) as [[[]|e] w']. Qed.

Lemma dispatch_change_storage_mode (w : World) :
  storage_mode (dispatch_change w) = storage_mode w.
Proof.
  unfold dispatch_change, run_listener. case_match; [|done].
  rewrite (proj1 (try_catch_log_storage _ _)). apply toggleTheme_storage_mode.
Qed.

Lemma dispatch_change_keeps_choice (w : World) :
  choice_persisted w → choice_persisted (dispatch_change w).
Proof.
  intros Hp. unfold dispatch_change, run_listener. case_match; [|done].
  unfold choice_persisted. rewrite (proj2 (try_catch_log_storage _ _)).
  by apply toggleTheme_keeps_choice.
Qed.

(** ** A persisted choice is kept by every event *)

Lemma onCtrlD_storage_mode (w : World) :
  storage_mode (snd (KeyboardNavigation.onCtrlD w)) = storage_mode w.
Proof.
  unfold KeyboardNavigation.onCtrlD, darkModeToggle_get_checked,
    darkModeToggle_set_checked, bind.
  destruct (darkModeToggle w) as [c|] eqn:Hc; [|done].
  cbn [snd]. rewrite Hc. cbn [snd]. by rewrite dispatch_change_storage_mode.
Qed.

Lemma onCtrlD_keeps_choice (w : World) :
  choice_persisted w → choice_persisted (snd (KeyboardNavigation.onCtrlD w)).
Proof.
  intros Hp.
  unfold KeyboardNavigation.onCtrlD, darkModeToggle_get_checked,
    darkModeToggle_set_checked, bind.
  destruct (darkModeToggle w) as [c|] eqn:Hc; [|done].
  cbn [snd]. rewrite Hc. cbn [snd]. apply dispatch_change_keeps_choice. exact Hp.
Qed.

Lemma run_timer_storage (a : TimerAction) (w : World) :
  storage_mode (run_timer a w) = storage_mode w ∧
  local_storage (run_timer a w) = local_storage w.
Proof. unfold run_timer. by destruct (theme_toggle_label w), a. Qed.

Lemma step_keeps_choice (e : Event) (w : World) :
  choice_persisted w →
  storage_mode (step e w) = storage_mode w ∧ choice_persisted (step e w).
Proof.
  intros Hp. destruct e as [| |p|i]; cbn [step].
  - destruct (darkModeToggle w) as [c|]; [|done]. split.
    + by rewrite dispatch_change_storage_mode.
    + by apply dispatch_change_keeps_choice.
  - case_match; [|done]. unfold run_listener, choice_persisted.
    rewrite (proj1 (try_catch_log_storage _ _)), (proj2 (try_catch_log_storage _ _)).
    split; [apply onCtrlD_storage_mode|by apply onCtrlD_keeps_choice].
  - case_match; [|done]. unfold run_listener, choice_persisted.
    rewrite (proj1 (try_catch_log_storage _ _)), (proj2 (try_catch_log_storage _ _)).
    by rewrite (proj1 (onPreferenceChange_persisted _ (with_os_pref p w) Hp)).
  - destruct (timers w !! i) as [[d a]|]; [|done]. unfold choice_persisted.
    by rewrite (proj1 (run_timer_storage _ _)), (proj2 (run_timer_storage _ _)).
Qed.

Lemma run_keeps_choice (es : list Event) (w : World) :
  choice_persisted w →
  storage_mode (run es w) = storage_mode w ∧ choice_persisted (run es w).
Proof.
  revert w. induction es as [|e es IH]; intros w Hp; cbn [run]; [done|].
  destruct (step_keeps_choice e w Hp) as [Hm Hp'].
  destruct (IH _ Hp') as [Hm' Hp'']. split; [congruence|done].
Qed.

(** An OS change on a page with a persisted choice and readable storage
    only records the new preference. *)
Lemma step_OsChange_persisted (p : OsPref) (w : World) :
  choice_persisted w →
  storage_mode w ≠ AccessDenied →
  step (OsChange p) w = with_os_pref p w.
Proof.
  intros Hp Hm. cbn [step]. case_match; [|done].
  unfold run_listener, try_catch_log.
  by rewrite (proj2 (onPreferenceChange_persisted _ (with_os_pref p w) Hp) Hm).
Qed.

(** C4. Take any page with working storage and let [toggleTheme] run once
    (an explicit toggle).  After any further events, a persisted choice
    exists, the media-query listener returns without calling [setTheme]
    (the world is left as it is), and an OS-preference-change event
    changes neither [this.currentTheme] nor any other theme surface. *)
Theorem user_choice_overrides_os_change
    (w : World) (es : list Event) (p : OsPref) (b : bool) :
  storage_functional w →
  let w1 := run es (snd (ThemeManager.toggleTheme w)) in
  choice_persisted w1 ∧
  ThemeManager.onPreferenceChange b w1 = (Ok (), w1) ∧
  currentTheme (step (OsChange p) w1) = currentTheme w1 ∧
  observe (step (OsChange p) w1) = observe w1.
Proof.
  intros Hs w1.
  assert (Hp0 : choice_persisted (snd (ThemeManager.toggleTheme w))).
  { exists (opposite (currentTheme w)).
    split; [by apply toggleTheme_stored|apply opposite_nonempty]. }
  destruct (run_keeps_choice es _ Hp0) as [Hm Hp]. fold w1 in Hm, Hp.
  assert (Hnd : storage_mode w1 ≠ AccessDenied).
  { rewrite Hm, toggleTheme_storage_mode, Hs. done. }
  split; [done|]. split; [by apply onPreferenceChange_persisted|].
  by rewrite step_OsChange_persisted.
Qed.

Lemma user_choice_overrides_os_change_witness :
  let w1 := run [CtrlD; TimerFires 0]
              (snd (ThemeManager.toggleTheme (DOMContentLoaded None sample_page))) in
  choice_persisted w1 ∧
  ThemeManager.onPreferenceChange true w1 = (Ok (), w1) ∧
  currentTheme (step (OsChange PrefersDark) w1) = currentTheme w1 ∧
  observe (step (OsChange PrefersDark) w1) = observe w1.
Proof.
  apply (user_choice_overrides_os_change
           (DOMContentLoaded None sample_page) [CtrlD; TimerFires 0] PrefersDark true).
  reflexivity.
Defined.

(** ** Page load *)

Lemma resolveInitialTheme_readable (w : World) :
  storage_mode w ≠ AccessDenied →
  ThemeManager.resolveInitialTheme w = (Ok (resolved w), w).
Proof.
  intros Hm. unfold resolved.
  destruct w as [? m ls ? ? ? ? ? ? ? ? ? ?]; js_eval.
  destruct m; try done; destruct (ls !! "theme") as [s|]; try done;
    by case_decide.
Qed.

Lemma resolveInitialTheme_denied (w : World) :
  storage_mode w = AccessDenied →
  ThemeManager.resolveInitialTheme w = (Throw SecurityError, w).
Proof.
  intros Hm. destruct w as [? m ls ? ? ? ? ? ? ? ? ? ?]; js_eval. by subst.
Qed.

Lemma resolved_nonempty (w : World) : resolved w ≠ "".
Proof. unfold resolved. repeat case_match; done. Qed.

Lemma themed_with_currentTheme (t t' : string) (c : Checkbox) (w : World) :
  themed t c (with_currentTheme t' w) = themed t c w.
Proof. reflexivity. Qed.

Lemma constructor_functional (w : World) (c : Checkbox) :
  storage_mode w = Functional →
  darkModeToggle w = Some c →
  ThemeManager.constructor w =
    (Ok (), with_media_listener true (with_change_listener true (themed (resolved w) c w))).
Proof.
  intros Hm Hc. unfold ThemeManager.constructor, bind at 1.
  rewrite resolveInitialTheme_readable by (rewrite Hm; done).
  unfold set_currentTheme, ThemeManager.init, get_currentTheme, bind at 1 2 3.
  cbn [currentTheme with_currentTheme].
  rewrite (setTheme_functional _ _ c) by done.
  rewrite themed_with_currentTheme.
  unfold darkModeToggle_addEventListener, matchMedia_addEventListener, bind.
  reflexivity.
Qed.

Lemma constructor_no_widget (w : World) :
  storage_mode w = Functional →
  darkModeToggle w = None →
  ThemeManager.constructor w =
    (Throw TypeError,
     with_currentTheme (resolved w)
       (with_local_storage (insert "theme" (resolved w))
          (with_root_attrs (insert "data-theme" (resolved w)) w))).
Proof.
  intros Hm Hc. unfold ThemeManager.constructor, bind at 1.
  rewrite resolveInitialTheme_readable by (rewrite Hm; done).
  unfold set_currentTheme, ThemeManager.init, get_currentTheme, bind at 1 2 3.
  cbn [currentTheme with_currentTheme].
  by rewrite setTheme_no_widget.
Qed.

Lemma DOMContentLoaded_storage (failure : option Exn) (w : World) :
  storage_mode w = Functional →
  storage_mode (DOMContentLoaded failure w) = Functional ∧
  local_storage (DOMContentLoaded failure w) !! "theme" = Some (resolved w).
Proof.
  intros Hm. unfold DOMContentLoaded.
  rewrite (proj1 (try_catch_log_storage _ _)), (proj2 (try_catch_log_storage _ _)).
  unfold bind at 1 3.
  destruct (darkModeToggle w) as [c|] eqn:Hc.
  - rewrite (constructor_functional w c) by done.
    unfold other_components, KeyboardNavigation.constructor, KeyboardNavigation.init,
      bind, ret, throw, themed.
    destruct failure; world_fields; by rewrite lookup_insert_eq.
  - rewrite constructor_no_widget by done. world_fields. by rewrite lookup_insert_eq.
Qed.

(** C6. On every page load with working storage, initialization persists
    the resolved theme: after the [DOMContentLoaded] listener the item under
    "theme" is the value [resolveInitialTheme] returned.  From then on,
    whatever events follow (toggles or none), [getStoredTheme] returns a
    non-empty string, never null; the media-query listener returns without
    calling [setTheme]; and an OS-preference-change event changes no theme
    surface. *)
Theorem init_persists_resolved_theme
    (w0 : World) (failure : option Exn) (es : list Event) (p : OsPref) (b : bool) :
  storage_functional w0 →
  let w1 := DOMContentLoaded failure w0 in
  let w := run es w1 in
  (∃ t, ThemeManager.resolveInitialTheme w0 = (Ok t, w0) ∧
        local_storage w1 !! "theme" = Some t) ∧
  (∃ s, ThemeManager.getStoredTheme w = (Ok (Some s), w) ∧ s ≠ "") ∧
  ThemeManager.onPreferenceChange b w = (Ok (), w) ∧
  currentTheme (step (OsChange p) w) = currentTheme w ∧
  observe (step (OsChange p) w) = observe w.
Proof.
  intros Hs w1 w.
  destruct (DOMContentLoaded_storage failure w0 Hs) as [Hm1 Hst1]. fold w1 in Hm1, Hst1.
  assert (Hp1 : choice_persisted w1).
  { exists (resolved w0). split; [done|apply resolved_nonempty]. }
  destruct (run_keeps_choice es w1 Hp1) as [Hm Hp]. fold w in Hm, Hp.
  assert (Hnd : storage_mode w ≠ AccessDenied) by (rewrite Hm, Hm1; done).
  split.
  { exists (resolved w0). split; [|done].
    apply resolveInitialTheme_readable. rewrite Hs. done. }
  split.
  { destruct Hp as (s & Hls & Hne). exists s. split; [|done].
    unfold ThemeManager.getStoredTheme, localStorage_getItem.
    rewrite Hm, Hm1. by rewrite Hls. }
  split; [by apply onPreferenceChange_persisted|].
  by rewrite step_OsChange_persisted.
Qed.

Lemma init_persists_resolved_theme_witness :
  let w1 := DOMContentLoaded None sample_page in
  let w := run [] w1 in
  (∃ t, ThemeManager.resolveInitialTheme sample_page = (Ok t, sample_page) ∧
        local_storage w1 !! "theme" = Some t) ∧
  (∃ s, ThemeManager.getStoredTheme w = (Ok (Some s), w) ∧ s ≠ "") ∧
  ThemeManager.onPreferenceChange true w = (Ok (), w) ∧
  currentTheme (step (OsChange PrefersDark) w) = currentTheme w ∧
  observe (step (OsChange PrefersDark) w) = observe w.
Proof.
  apply (init_persists_resolved_theme sample_page None [] PrefersDark true).
  reflexivity.
Defined.

(** C5, evaluated on the code.  A page with empty storage loads while the OS
    prefers light, and the user never toggles.  The media-query listener is
    registered, the OS then reports dark, and the theme stays "light" on
    every surface: initialization itself stored "light", so the listener's
    guard finds a stored theme. *)
Theorem os_change_before_any_toggle_is_ignored :
  let w1 := DOMContentLoaded None sample_page in
  local_storage sample_page !! "theme" = None ∧
  media_listener w1 = true ∧
  currentTheme w1 = "light" ∧
  local_storage w1 !! "theme" = Some "light" ∧
  currentTheme (step (OsChange PrefersDark) w1) = "light" ∧
  root_attrs (step (OsChange PrefersDark) w1) !! "data-theme" = Some "light" ∧
  console_errors (step (OsChange PrefersDark) w1) = [].
Proof. vm_compute. repeat split; reflexivity. Qed.

(** C2. On a page whose storage can be read and holds either no theme or
    one of "light" and "dark", [resolveInitialTheme] returns the stored
    theme when there is one, whatever the OS prefers; otherwise "dark" when
    the OS prefers dark and "light" when it prefers light or reports no
    preference.  The world is returned as it was: no side effect. *)
Theorem resolveInitialTheme_precedence (w : World) (stored : option string) :
  storage_mode w ≠ AccessDenied →
  local_storage w !! "theme" = stored →
  (∀ v, stored = Some v → valid_theme v) →
  ThemeManager.resolveInitialTheme w =
    (Ok match stored with
        | Some v => v
        | None => match os_pref w with
                  | PrefersDark => "dark"
                  | PrefersLight => "light"
                  | NoPreference => "light"
                  end
        end, w).
Proof.
  intros Hm Hst Hv. rewrite resolveInitialTheme_readable by done.
  unfold resolved. rewrite Hst. destruct stored as [v|].
  - destruct (Hv v eq_refl) as [-> | ->]; reflexivity.
  - by destruct (os_pref w).
Qed.

Lemma resolveInitialTheme_precedence_witness :
  let w := fresh_page Functional {["theme" := "dark"]} PrefersLight None None in
  ThemeManager.resolveInitialTheme w = (Ok "dark", w).
Proof.
  apply (resolveInitialTheme_precedence
           (fresh_page Functional {["theme" := "dark"]} PrefersLight None None)
           (Some "dark")).
  - discriminate.
  - reflexivity.
  - intros v [= <-]. right. reflexivity.
Defined.

(** ** [toggleTheme] on a page with the widget and its label *)

Lemma addToggleAnimation_label (w : World) (l : LabelEl) :
  theme_toggle_label w = Some l →
  ThemeManager.addToggleAnimation w = (Ok (), animated l w).
Proof.
  intros Hl. destruct w; js_eval. subst. reflexivity.
Qed.

Lemma addToggleAnimation_no_label (w : World) :
  theme_toggle_label w = None →
  ThemeManager.addToggleAnimation w = (Throw TypeError, w).
Proof.
  intros Hl. destruct w; js_eval. subst. reflexivity.
Qed.

Lemma toggleTheme_unfold (w : World) :
  ThemeManager.toggleTheme w =
    (ThemeManager.setTheme (opposite (currentTheme w)) ;; ThemeManager.addToggleAnimation) w.
Proof. reflexivity. Qed.

Lemma toggleTheme_normal (w : World) (c : Checkbox) (l : LabelEl) :
  storage_mode w = Functional →
  darkModeToggle w = Some c →
  theme_toggle_label w = Some l →
  ThemeManager.toggleTheme w =
    (Ok (), animated l (themed (opposite (currentTheme w)) c w)).
Proof.
  intros Hm Hc Hl. rewrite toggleTheme_unfold. unfold bind.
  rewrite (setTheme_functional _ _ c) by done.
  by apply addToggleAnimation_label.
Qed.

Lemma toggleTheme_no_widget (w : World) :
  storage_mode w = Functional →
  darkModeToggle w = None →
  ThemeManager.toggleTheme w =
    (Throw TypeError,
     with_currentTheme (opposite (currentTheme w))
       (with_local_storage (insert "theme" (opposite (currentTheme w)))
          (with_root_attrs (insert "data-theme" (opposite (currentTheme w))) w))).
Proof.
  intros Hm Hc. rewrite toggleTheme_unfold. unfold bind.
  by rewrite setTheme_no_widget.
Qed.

Lemma toggleTheme_complete (w : World) :
  normal_page w →
  ∃ w', ThemeManager.toggleTheme w = (Ok (), w') ∧
        currentTheme w' = opposite (currentTheme w) ∧
        normal_page w'.
Proof.
  intros (Hm & [c Hc] & [l Hl]).
  eexists. split; [by apply toggleTheme_normal|].
  split; [reflexivity|].
  unfold normal_page, storage_functional, widget_present, label_present,
    animated, themed. world_fields. eauto.
Qed.

Lemma repeat_toggleTheme (n : nat) (w : World) :
  normal_page w →
  ∃ w', repeat_js n ThemeManager.toggleTheme w = (Ok (), w') ∧
        currentTheme w' = Nat.iter n opposite (currentTheme w) ∧
        normal_page w'.
Proof.
  revert w. induction n as [|n IH]; intros w Hn.
  - by exists w.
  - destruct (toggleTheme_complete w Hn) as (w1 & E1 & Ht1 & Hn1).
    destruct (IH w1 Hn1) as (w' & E' & Ht' & Hn').
    exists w'. split; [|split; [|done]].
    + cbn [repeat_js]. unfold bind at 1. by rewrite E1.
    + rewrite Ht', Ht1. symmetry. apply Nat.iter_succ_r.
Qed.

Lemma iter_opposite (n : nat) (v : string) :
  valid_theme v →
  Nat.iter n opposite v = if Nat.even n then v else opposite v.
Proof.
  intros Hv. induction n as [|n IH]; [done|].
  rewrite Nat.iter_succ, IH, Nat.even_succ, <- Nat.negb_even.
  destruct (Nat.even n); cbn [negb]; [done|by apply opposite_involutive].
Qed.

(** C3. On a page with working storage, the checkbox and its label, and a
    current theme [v] that is "light" or "dark": [n] calls of
    [toggleTheme] in a row all return, and leave [v] as the current theme
    when [n] is even and the other theme when [n] is odd.  One call maps
    "light" to "dark" and "dark" to "light", never to the value it
    started from, and two calls give back [v]. *)
Theorem toggleTheme_alternates (w : World) (v : string) (n : nat) :
  normal_page w →
  valid_theme v →
  currentTheme w = v →
  (∃ w', repeat_js n ThemeManager.toggleTheme w = (Ok (), w') ∧
         currentTheme w' = if Nat.even n then v else opposite v) ∧
  (∃ w1, ThemeManager.toggleTheme w = (Ok (), w1) ∧
         currentTheme w1 ≠ v ∧
         (v = "light" → currentTheme w1 = "dark") ∧
         (v = "dark" → currentTheme w1 = "light") ∧
         ∃ w2, ThemeManager.toggleTheme w1 = (Ok (), w2) ∧ currentTheme w2 = v).
Proof.
  intros Hn Hv Hc. split.
  - destruct (repeat_toggleTheme n w Hn) as (w' & E & Ht & _).
    exists w'. split; [done|]. rewrite Ht, Hc. by apply iter_opposite.
  - destruct (toggleTheme_complete w Hn) as (w1 & E1 & Ht1 & Hn1).
    destruct (toggleTheme_complete w1 Hn1) as (w2 & E2 & Ht2 & _).
    rewrite Hc in Ht1.
    exists w1. split; [done|]. split; [rewrite Ht1; apply opposite_differs|].
    split; [by intros ->|]. split; [by intros ->|].
    exists w2. split; [done|]. rewrite Ht2, Ht1. by apply opposite_involutive.
Qed.

Lemma toggleTheme_alternates_witness :
  let w := DOMContentLoaded None sample_page in
  (∃ w', repeat_js 3 ThemeManager.toggleTheme w = (Ok (), w') ∧
         currentTheme w' = if Nat.even 3 then "light" else opposite "light") ∧
  (∃ w1, ThemeManager.toggleTheme w = (Ok (), w1) ∧
         currentTheme w1 ≠ "light" ∧
         ("light" = "light" → currentTheme w1 = "dark") ∧
         ("light" = "dark" → currentTheme w1 = "light") ∧
         ∃ w2, ThemeManager.toggleTheme w1 = (Ok (), w2) ∧ currentTheme w2 = "light").
Proof.
  apply (toggleTheme_alternates (DOMContentLoaded None sample_page) "light" 3).
  - split; [reflexivity|]. split; eexists; reflexivity.
  - left. reflexivity.
  - reflexivity.
Defined.

(** ** Storage failures *)

Lemma constructor_storage_failure (w : World) :
  storage_mode w ≠ Functional →
  ∃ e w', ThemeManager.constructor w = (Throw e, w') ∧
          local_storage w' = local_storage w ∧
          darkModeToggle w' = darkModeToggle w ∧
          change_listener w' = change_listener w ∧
          media_listener w' = media_listener w.
Proof.
  intros Hm. destruct (decide (storage_mode w = AccessDenied)) as [Hd|Hd].
  - exists SecurityError, w. unfold ThemeManager.constructor, bind.
    by rewrite resolveInitialTheme_denied.
  - eexists _, _. unfold ThemeManager.constructor, bind at 1.
    rewrite resolveInitialTheme_readable by done.
    unfold set_currentTheme, ThemeManager.init, get_currentTheme, bind at 1 2 3.
    cbn [currentTheme with_currentTheme].
    rewrite setTheme_storage_failure by done. done.
Qed.

(** C8, on [denied_page]: with storage access denied the constructor does
    not complete.  It throws SecurityError at its first read, the page
    initializer logs the error, and no theme is applied, no listener
    registered. *)
Lemma storage_denied_constructor_throws :
  storage_mode denied_page = AccessDenied ∧
  (¬ ∃ w', ThemeManager.constructor denied_page = (Ok (), w')) ∧
  ThemeManager.constructor denied_page = (Throw SecurityError, denied_page) ∧
  ThemeManager.getStoredTheme denied_page = (Throw SecurityError, denied_page) ∧
  fst (ThemeManager.setTheme "dark" denied_page) = Throw SecurityError ∧
  console_errors (DOMContentLoaded None denied_page) = [SecurityError] ∧
  root_attrs (DOMContentLoaded None denied_page) !! "data-theme" = None ∧
  change_listener (DOMContentLoaded None denied_page) = false ∧
  media_listener (DOMContentLoaded None denied_page) = false.
Proof.
  split; [reflexivity|]. split; [by intros [w' [=]]|].
  vm_compute. repeat split; reflexivity.
Qed.

(** C8, as the code has it.  When storage is not functional, the theme
    operations throw instead of degrading: [setTheme v] and [toggleTheme]
    set the [data-theme] attribute and then throw at the storage write
    (SecurityError when access is denied, QuotaExceededError when writes
    are rejected), leaving the stored items, [this.currentTheme] and the
    checkbox as they were; the constructor throws before it registers a
    listener; the page initializer catches the error and logs it.  With
    access denied the storage read throws as well and the constructor
    leaves the page untouched. *)
Theorem storage_failure_throws (w : World) (v : string) (failure : option Exn) :
  storage_mode w ≠ Functional →
  ThemeManager.setTheme v w =
    (Throw (write_error (storage_mode w)),
     with_root_attrs (insert "data-theme" v) w) ∧
  ThemeManager.toggleTheme w =
    (Throw (write_error (storage_mode w)),
     with_root_attrs (insert "data-theme" (opposite (currentTheme w))) w) ∧
  (∃ e w', ThemeManager.constructor w = (Throw e, w') ∧
           DOMContentLoaded failure w = with_console_error e w' ∧
           local_storage w' = local_storage w ∧
           darkModeToggle w' = darkModeToggle w ∧
           change_listener w' = change_listener w ∧
           media_listener w' = media_listener w) ∧
  (storage_mode w = AccessDenied →
     ThemeManager.getStoredTheme w = (Throw SecurityError, w) ∧
     ThemeManager.constructor w = (Throw SecurityError, w)).
Proof.
  intros Hm. split; [by apply setTheme_storage_failure|]. split.
  { rewrite toggleTheme_unfold. unfold bind.
    by rewrite setTheme_storage_failure. }
  split.
  { destruct (constructor_storage_failure w Hm) as (e & w' & E & H).
    exists e, w'. split; [done|]. split; [|done].
    unfold DOMContentLoaded, try_catch_log, bind. by rewrite E. }
  intros Hd. split.
  - unfold ThemeManager.getStoredTheme, localStorage_getItem. by rewrite Hd.
  - unfold ThemeManager.constructor, bind. by rewrite resolveInitialTheme_denied.
Qed.

Lemma storage_failure_throws_witness :
  ThemeManager.setTheme "dark" denied_page =
    (Throw (write_error (storage_mode denied_page)),
     with_root_attrs (insert "data-theme" "dark") denied_page) ∧
  ThemeManager.toggleTheme denied_page =
    (Throw (write_error (storage_mode denied_page)),
     with_root_attrs (insert "data-theme" (opposite (currentTheme denied_page))) denied_page) ∧
  (∃ e w', ThemeManager.constructor denied_page = (Throw e, w') ∧
           DOMContentLoaded None denied_page = with_console_error e w' ∧
           local_storage w' = local_storage denied_page ∧
           darkModeToggle w' = darkModeToggle denied_page ∧
           change_listener w' = change_listener denied_page ∧
           media_listener w' = media_listener denied_page) ∧
  (storage_mode denied_page = AccessDenied →
     ThemeManager.getStoredTheme denied_page = (Throw SecurityError, denied_page) ∧
     ThemeManager.constructor denied_page = (Throw SecurityError, denied_page)).
Proof.
  apply (storage_failure_throws denied_page "dark" None).
  discriminate.
Defined.

(** ** A page without the toggle checkbox *)

(** C9, on [no_widget_page]: with [darkModeToggle] null, [setTheme] and
    [toggleTheme] throw TypeError in [updateToggleState]. *)
Lemma widget_absent_setTheme_throws :
  darkModeToggle no_widget_page = None ∧
  (¬ ∃ w', ThemeManager.setTheme "dark" no_widget_page = (Ok (), w')) ∧
  (¬ ∃ w', ThemeManager.toggleTheme no_widget_page = (Ok (), w')) ∧
  fst (ThemeManager.updateToggleState no_widget_page) = Throw TypeError ∧
  fst (ThemeManager.setTheme "dark" no_widget_page) = Throw TypeError ∧
  fst (ThemeManager.toggleTheme no_widget_page) = Throw TypeError ∧
  console_errors (DOMContentLoaded None no_widget_page) = [TypeError].
Proof.
  split; [reflexivity|]. split; [by intros [w' [=]]|]. split; [by intros [w' [=]]|].
  vm_compute. repeat split; reflexivity.
Qed.

(** C9, as the code has it.  On a page with working storage and the toggle
    label: when the checkbox is present, [toggleTheme] returns and the
    current theme is the opposite one; when the checkbox is absent,
    [setTheme v] and [toggleTheme] set the [data-theme] attribute, the
    stored item and [this.currentTheme], and then throw TypeError in
    [updateToggleState] (the feedback animation is not reached). *)
Theorem toggleTheme_needs_widget (w : World) (v : string) :
  storage_functional w →
  label_present w →
  match darkModeToggle w with
  | Some _ =>
      (∃ w', ThemeManager.setTheme v w = (Ok (), w') ∧ currentTheme w' = v) ∧
      (∃ w', ThemeManager.toggleTheme w = (Ok (), w') ∧
             currentTheme w' = opposite (currentTheme w))
  | None =>
      ThemeManager.setTheme v w =
        (Throw TypeError,
         with_currentTheme v
           (with_local_storage (insert "theme" v)
              (with_root_attrs (insert "data-theme" v) w))) ∧
      ThemeManager.toggleTheme w =
        (Throw TypeError,
         with_currentTheme (opposite (currentTheme w))
           (with_local_storage (insert "theme" (opposite (currentTheme w)))
              (with_root_attrs (insert "data-theme" (opposite (currentTheme w))) w)))
  end.
Proof.
  intros Hm Hl. destruct (darkModeToggle w) as [c|] eqn:Hc.
  - split.
    + eexists. split; [by apply setTheme_functional|reflexivity].
    + destruct (toggleTheme_complete w) as (w' & E & Ht & _).
      { split; [done|]. split; [by exists c|done]. }
      by exists w'.
  - split; [by apply setTheme_no_widget|by apply toggleTheme_no_widget].
Qed.

Lemma toggleTheme_needs_widget_witness :
  ThemeManager.setTheme "dark" no_widget_page =
    (Throw TypeError,
     with_currentTheme "dark"
       (with_local_storage (insert "theme" "dark")
          (with_root_attrs (insert "data-theme" "dark") no_widget_page))) ∧
  ThemeManager.toggleTheme no_widget_page =
    (Throw TypeError,
     with_currentTheme (opposite (currentTheme no_widget_page))
       (with_local_storage (insert "theme" (opposite (currentTheme no_widget_page)))
          (with_root_attrs (insert "data-theme" (opposite (currentTheme no_widget_page)))
             no_widget_page))).
Proof.
  apply (toggleTheme_needs_widget no_widget_page "dark").
  - reflexivity.
  - eexists. reflexivity.
Defined.

(** ** Stored strings that are not themes *)

(** C10, on [empty_string_page]: the stored theme is the empty string, the
    OS prefers dark, and the constructor's current theme is "dark", not the
    stored string. *)
Lemma empty_stored_string_not_adopted :
  local_storage empty_string_page !! "theme" = Some "" ∧
  ThemeManager.resolveInitialTheme empty_string_page = (Ok "dark", empty_string_page) ∧
  fst (ThemeManager.constructor empty_string_page) = Ok () ∧
  currentTheme (snd (ThemeManager.constructor empty_string_page)) = "dark" ∧
  currentTheme (snd (ThemeManager.constructor empty_string_page)) ≠ "".
Proof. vm_compute. repeat split; (reflexivity || discriminate). Qed.

(** C10, as the code has it.  On a page with working storage, the checkbox
    and its label, the constructor adopts every non-empty stored string [s]
    as the current theme, whether or not it is "light" or "dark"; and on
    such a page [w'], whatever its current theme, [toggleTheme] returns
    with current theme "dark" unless it was "dark", and "light" if it
    was: after one toggle the current theme is "light" or "dark". *)
Theorem constructor_adopts_nonempty_stored_string (w w' : World) (s : string) :
  normal_page w →
  local_storage w !! "theme" = Some s →
  s ≠ "" →
  normal_page w' →
  (ThemeManager.resolveInitialTheme w = (Ok s, w) ∧
   ∃ w1, ThemeManager.constructor w = (Ok (), w1) ∧ currentTheme w1 = s) ∧
  (∃ w2, ThemeManager.toggleTheme w' = (Ok (), w2) ∧
         (currentTheme w' ≠ "dark" → currentTheme w2 = "dark") ∧
         (currentTheme w' = "dark" → currentTheme w2 = "light") ∧
         valid_theme (currentTheme w2)).
Proof.
  intros (Hm & [c Hc] & _) Hst Hne Hn'.
  assert (Hr : resolved w = s).
  { unfold resolved. rewrite Hst. by rewrite decide_False. }
  split.
  - split.
    + rewrite resolveInitialTheme_readable by (rewrite Hm; done). by rewrite Hr.
    + eexists. split; [by apply constructor_functional|]. exact Hr.
  - destruct (toggleTheme_complete w' Hn') as (w2 & E & Ht & _).
    exists w2. split; [done|]. rewrite Ht. unfold opposite.
    split; [|split]; [by intros; rewrite decide_False|by intros ->|].
    apply opposite_valid.
Qed.

Lemma constructor_adopts_nonempty_stored_string_witness :
  let w := fresh_page Functional {["theme" := "sepia"]} PrefersLight
             (Some (mkCheckbox false ∅)) (Some (mkLabel ∅ [])) in
  let w' := snd (ThemeManager.constructor w) in
  (ThemeManager.resolveInitialTheme w = (Ok "sepia", w) ∧
   ∃ w1, ThemeManager.constructor w = (Ok (), w1) ∧ currentTheme w1 = "sepia") ∧
  (∃ w2, ThemeManager.toggleTheme w' = (Ok (), w2) ∧
         (currentTheme w' ≠ "dark" → currentTheme w2 = "dark") ∧
         (currentTheme w' = "dark" → currentTheme w2 = "light") ∧
         valid_theme (currentTheme w2)).
Proof.
  apply (constructor_adopts_nonempty_stored_string
           (fresh_page Functional {["theme" := "sepia"]} PrefersLight
              (Some (mkCheckbox false ∅)) (Some (mkLabel ∅ [])))
           (snd (ThemeManager.constructor
              (fresh_page Functional {["theme" := "sepia"]} PrefersLight
                 (Some (mkCheckbox false ∅)) (Some (mkLabel ∅ []))))) "sepia").
  - split; [reflexivity|]. split; eexists; reflexivity.
  - reflexivity.
  - discriminate.
  - split; [reflexivity|]. split; eexists; reflexivity.
Defined.

(** * Further properties *)

(** ** Theme: consistency along every trace *)

Lemma onCtrlD_widget (w : World) (c : Checkbox) :
  darkModeToggle w = Some c →
  KeyboardNavigation.onCtrlD w =
    (Ok (), dispatch_change (with_toggle (mkCheckbox (negb (checked c)) (cb_attrs c)) w)).
Proof.
  intros Hc. unfold KeyboardNavigation.onCtrlD, darkModeToggle_get_checked,
    darkModeToggle_set_checked, bind.
  rewrite Hc. cbn [with_toggle darkModeToggle]. by rewrite Hc.
Qed.

Lemma onCtrlD_no_widget (w : World) :
  darkModeToggle w = None →
  KeyboardNavigation.onCtrlD w = (Throw TypeError, w).
Proof.
  intros Hc. unfold KeyboardNavigation.onCtrlD, darkModeToggle_get_checked, bind.
  by rewrite Hc.
Qed.

Lemma themed_surfaces_agree (t : string) (c : Checkbox) (w : World) :
  surfaces_agree (themed t c w).
Proof.
  eexists. split; [reflexivity|]. unfold themed. world_fields.
  by rewrite !lookup_insert_eq.
Qed.

Lemma setTheme_surfaces_agree (t : string) (w : World) :
  storage_mode w = Functional →
  widget_present w →
  ∃ w', ThemeManager.setTheme t w = (Ok (), w') ∧ surfaces_agree w' ∧
        storage_mode w' = Functional ∧ change_listener w' = change_listener w ∧
        media_listener w' = media_listener w ∧ keydown_listener w' = keydown_listener w.
Proof.
  intros Hm [c Hc]. exists (themed t c w).
  split; [by apply setTheme_functional|]. split; [apply themed_surfaces_agree|].
  by unfold themed.
Qed.

(** [addToggleAnimation] touches the label, the timers and the node
    counter only. *)
Lemma addToggleAnimation_frame (w : World) :
  let w' := snd (ThemeManager.addToggleAnimation w) in
  root_attrs w' = root_attrs w ∧ storage_mode w' = storage_mode w ∧
  local_storage w' = local_storage w ∧ darkModeToggle w' = darkModeToggle w ∧
  currentTheme w' = currentTheme w ∧ change_listener w' = change_listener w ∧
  media_listener w' = media_listener w ∧ keydown_listener w' = keydown_listener w.
Proof.
  destruct (theme_toggle_label w) as [l|] eqn:Hl.
  - by rewrite (addToggleAnimation_label w l).
  - by rewrite addToggleAnimation_no_label.
Qed.

Lemma surfaces_agree_frame (w w' : World) :
  root_attrs w' = root_attrs w →
  local_storage w' = local_storage w →
  darkModeToggle w' = darkModeToggle w →
  currentTheme w' = currentTheme w →
  surfaces_agree w → surfaces_agree w'.
Proof. unfold surfaces_agree. by intros -> -> -> ->. Qed.

Lemma toggleTheme_surfaces_agree (w : World) :
  storage_mode w = Functional →
  widget_present w →
  let w' := snd (ThemeManager.toggleTheme w) in
  surfaces_agree w' ∧ storage_mode w' = Functional ∧
  change_listener w' = change_listener w ∧ media_listener w' = media_listener w ∧
  keydown_listener w' = keydown_listener w ∧
  currentTheme w' = opposite (currentTheme w).
Proof.
  intros Hm Hw.
  destruct (setTheme_surfaces_agree (opposite (currentTheme w)) w Hm Hw)
    as (w1 & E & Ha & Hm1 & Hl1 & Hl2 & Hl3).
  assert (Hc1 : currentTheme w1 = opposite (currentTheme w)).
  { destruct Hw as [c Hc]. rewrite (setTheme_functional _ _ c) in E by done.
    by injection E as <-. }
  rewrite toggleTheme_unfold. unfold bind. rewrite E.
  destruct (addToggleAnimation_frame w1) as (F1 & F2 & F3 & F4 & F5 & F6 & F7 & F8).
  cbn zeta in *.
  split; [by apply (surfaces_agree_frame w1)|].
  repeat split; congruence.
Qed.

(** The invariant of a loaded page: storage works, the 'change' listener is
    registered, and the surfaces agree. *)
Lemma dispatch_change_surfaces_agree (w : World) :
  storage_mode w = Functional →
  change_listener w = true →
  widget_present w →
  let w' := dispatch_change w in
  surfaces_agree w' ∧ storage_mode w' = Functional ∧
  change_listener w' = true ∧ keydown_listener w' = keydown_listener w ∧
  media_listener w' = media_listener w.
Proof.
  intros Hm Hl Hw. cbn zeta. unfold dispatch_change. rewrite Hl.
  destruct (toggleTheme_surfaces_agree w Hm Hw) as (Ha & Hm' & L1 & L2 & L3 & _).
  unfold run_listener, try_catch_log.
  destruct (ThemeManager.toggleTheme w) as [[[]|e] w1]; cbn [snd] in *.
  - repeat split; congruence.
  - split; [by apply (surfaces_agree_frame w1)|].
    unfold with_console_error; cbn. repeat split; congruence.
Qed.

Lemma surfaces_agree_widget (w : World) : surfaces_agree w → widget_present w.
Proof. intros (c & Hc & _). by exists c. Qed.

Lemma step_surfaces_agree (e : Event) (w : World) :
  storage_mode w = Functional →
  change_listener w = true →
  surfaces_agree w →
  storage_mode (step e w) = Functional ∧ change_listener (step e w) = true ∧
  surfaces_agree (step e w).
Proof.
  intros Hm Hl Ha. pose proof (surfaces_agree_widget w Ha) as Hw.
  destruct e as [| |p|i]; cbn [step].
  - destruct Hw as [c Hc]. rewrite Hc.
    set (w1 := with_toggle _ w).
    destruct (dispatch_change_surfaces_agree w1) as (A & B & C & _); try done.
    by eexists.
  - destruct (keydown_listener w); [|done].
    destruct Hw as [c Hc].
    unfold run_listener, try_catch_log. rewrite (onCtrlD_widget w c) by done.
    set (w1 := with_toggle _ w).
    destruct (dispatch_change_surfaces_agree w1) as (A & B & C & _); try done.
    by eexists.
  - assert (Hp : surfaces_agree (with_os_pref p w)) by exact Ha.
    case_match; [|done].
    unfold run_listener, try_catch_log, ThemeManager.onPreferenceChange,
      ThemeManager.getStoredTheme, localStorage_getItem, bind, ret.
    cbn [with_os_pref storage_mode local_storage]. rewrite Hm.
    destruct (setTheme_surfaces_agree (if matches p then "dark" else "light")
                (with_os_pref p w) Hm Hw) as (w2 & E & A2 & M2 & L2 & _).
    destruct (local_storage w !! "theme") as [s|]; [destruct (decide (s = ""))|];
      rewrite ?E; try done; repeat split; try congruence; by rewrite L2.
  - destruct (timers w !! i) as [[d a]|]; [|done].
    unfold run_timer. cbn [with_timers theme_toggle_label].
    destruct (theme_toggle_label w) as [l|]; [destruct a|]; done.
Qed.

(** X1. On a page with working storage and the toggle checkbox, once the
    [DOMContentLoaded] listener has run, the theme surfaces agree after
    every event, whatever the events are (clicks, the shortcut, OS changes,
    timers) and whether or not a later component failed during load: the
    [data-theme] attribute and the stored item are [this.currentTheme], the
    checkbox is checked exactly when it is "dark", and the [aria-label]
    names the other mode. *)
Theorem surfaces_agree_along_every_trace
    (w0 : World) (failure : option Exn) (es : list Event) :
  storage_functional w0 →
  widget_present w0 →
  surfaces_agree (run es (DOMContentLoaded failure w0)).
Proof.
  intros Hm [c Hc].
  assert (H1 : storage_mode (DOMContentLoaded failure w0) = Functional ∧
               change_listener (DOMContentLoaded failure w0) = true ∧
               surfaces_agree (DOMContentLoaded failure w0)).
  { unfold DOMContentLoaded, try_catch_log, bind.
    rewrite (constructor_functional w0 c) by done.
    pose proof (themed_surfaces_agree (resolved w0) c w0) as Ha.
    unfold other_components, KeyboardNavigation.constructor, KeyboardNavigation.init,
      ret, throw.
    destruct failure; (split; [exact Hm|split; [reflexivity|exact Ha]]). }
  revert H1. generalize (DOMContentLoaded failure w0). clear.
  induction es as [|e es IH]; intros w (Hm & Hl & Ha); [done|].
  cbn [run]. apply IH. by apply step_surfaces_agree.
Qed.

Lemma surfaces_agree_along_every_trace_witness :
  surfaces_agree (run [UserToggle; OsChange PrefersDark; CtrlD; TimerFires 1]
                    (DOMContentLoaded None sample_page)).
Proof.
  apply (surfaces_agree_along_every_trace sample_page None
           [UserToggle; OsChange PrefersDark; CtrlD; TimerFires 1]).
  - reflexivity.
  - eexists. reflexivity.
Defined.

(** ** Theme: the ripples of the feedback animation *)

Lemma ripples_tracked_anim_part (w w' : World) :
  anim_part w' = anim_part w → ripples_tracked w → ripples_tracked w'.
Proof.
  unfold anim_part, ripples_tracked, shown_ripples. by intros [= -> -> ->].
Qed.

Lemma setTheme_anim_part (t : string) (w : World) :
  anim_part (snd (ThemeManager.setTheme t w)) = anim_part w.
Proof.
  destruct (decide (storage_mode w = Functional)) as [Hm|Hm].
  - destruct (darkModeToggle w) as [c|] eqn:Hc.
    + by rewrite (setTheme_functional t w c).
    + by rewrite setTheme_no_widget.
  - by rewrite setTheme_storage_failure.
Qed.

Lemma ripple_ids_app (ts1 ts2 : list (nat * TimerAction)) :
  ripple_ids (ts1 ++ ts2) = ripple_ids ts1 ++ ripple_ids ts2.
Proof.
  induction ts1 as [|[d [|n]] ts1 IH]; cbn [ripple_ids app]; [done|done|].
  by rewrite IH.
Qed.

Lemma addToggleAnimation_tracked (w : World) :
  ripples_tracked w → ripples_tracked (snd (ThemeManager.addToggleAnimation w)).
Proof.
  intros (Hs & Hn & Hf). unfold shown_ripples in Hs.
  destruct (theme_toggle_label w) as [l|] eqn:Hl.
  - rewrite (addToggleAnimation_label w l) by done.
    unfold ripples_tracked, shown_ripples, animated. world_fields.
    rewrite !ripple_ids_app. cbn [ripple_ids]. rewrite app_nil_r.
    split; [by rewrite Hs|]. split.
    + apply NoDup_app. split; [done|]. split; [|apply NoDup_singleton].
      intros n Hin ->%list_elem_of_singleton.
      rewrite Forall_forall in Hf. specialize (Hf _ Hin). lia.
    + apply Forall_app. split.
      * eapply Forall_impl; [exact Hf|]. cbn. lia.
      * apply Forall_singleton. lia.
  - rewrite addToggleAnimation_no_label by done. cbn [snd].
    unfold ripples_tracked, shown_ripples. by rewrite Hl.
Qed.

Lemma toggleTheme_tracked (w : World) :
  ripples_tracked w → ripples_tracked (snd (ThemeManager.toggleTheme w)).
Proof.
  intros Ht. rewrite toggleTheme_unfold. unfold bind.
  pose proof (setTheme_anim_part (opposite (currentTheme w)) w) as Hp.
  destruct (ThemeManager.setTheme _ w) as [[[]|e] w1]; cbn [snd] in *.
  - apply addToggleAnimation_tracked. by apply (ripples_tracked_anim_part w).
  - by apply (ripples_tracked_anim_part w).
Qed.

Lemma try_catch_log_anim_part (m : JS unit) (w : World) :
  anim_part (try_catch_log m w) = anim_part (snd (m w)).
Proof. unfold try_catch_log. by destruct (m w) as [[[]|e] w']. Qed.

Lemma dispatch_change_tracked (w : World) :
  ripples_tracked w → ripples_tracked (dispatch_change w).
Proof.
  intros Ht. unfold dispatch_change, run_listener. case_match; [|done].
  eapply ripples_tracked_anim_part; [apply try_catch_log_anim_part|].
  by apply toggleTheme_tracked.
Qed.

Lemma filter_ne_not_elem (n : nat) (l : list nat) :
  n ∉ l → filter (λ k, k ≠ n) l = l.
Proof.
  induction l as [|k l IH]; intros Hn; [done|].
  apply not_elem_of_cons in Hn as [Hk Hn].
  rewrite filter_cons_True by done. by rewrite IH.
Qed.

Lemma ripple_ids_delete (ts : list (nat * TimerAction)) (i d n : nat) :
  ts !! i = Some (d, RemoveRipple n) →
  NoDup (ripple_ids ts) →
  ripple_ids (delete i ts) = filter (λ k, k ≠ n) (ripple_ids ts).
Proof.
  revert i. induction ts as [|[d' a] ts IH]; intros i Hi Hn; [done|].
  destruct i as [|i]; cbn in Hi.
  - injection Hi as -> ->. cbn [ripple_ids] in *.
    apply NoDup_cons in Hn as [Hnot Hn].
    rewrite filter_cons_False by (intros ?; done).
    by rewrite filter_ne_not_elem.
  - destruct a as [|m]; cbn [ripple_ids] in *.
    + by apply IH.
    + apply NoDup_cons in Hn as [Hnot Hn].
      change (delete (S i) ((d', RemoveRipple m) :: ts))
        with ((d', RemoveRipple m) :: delete i ts).
      cbn [ripple_ids]. rewrite (IH i) by done.
      rewrite filter_cons_True; [done|].
      intros ->. apply Hnot.
      clear -Hi. revert i Hi. induction ts as [|[d'' [|k]] ts IH2]; intros i Hi; [done|..].
      * destruct i; [done|]. cbn [ripple_ids]. by apply (IH2 i).
      * destruct i as [|i]; cbn in Hi.
        -- injection Hi as _ ->. cbn [ripple_ids]. left.
        -- cbn [ripple_ids]. right. by apply (IH2 i).
Qed.

Lemma ripple_ids_delete_reset (ts : list (nat * TimerAction)) (i d : nat) :
  ts !! i = Some (d, ResetScale) →
  ripple_ids (delete i ts) = ripple_ids ts.
Proof.
  revert i. induction ts as [|[d' a] ts IH]; intros i Hi; [done|].
  destruct i as [|i]; cbn in Hi.
  - by injection Hi as -> ->.
  - change (delete (S i) ((d', a) :: ts)) with ((d', a) :: delete i ts).
    destruct a; cbn [ripple_ids]; by rewrite (IH i).
Qed.

Lemma ripple_ids_lookup (ts : list (nat * TimerAction)) (i d n : nat) :
  ts !! i = Some (d, RemoveRipple n) → n ∈ ripple_ids ts.
Proof.
  revert i. induction ts as [|[d' [|k]] ts IH]; intros i Hi; [done|..].
  - destruct i; [done|]. cbn [ripple_ids]. by apply (IH i).
  - destruct i as [|i]; cbn in Hi.
    + injection Hi as _ ->. cbn [ripple_ids]. left.
    + cbn [ripple_ids]. right. by apply (IH i).
Qed.

Lemma step_tracked (e : Event) (w : World) :
  ripples_tracked w → ripples_tracked (step e w).
Proof.
  intros Ht. destruct e as [| |p|i]; cbn [step].
  - destruct (darkModeToggle w) as [c|]; [|done].
    by apply dispatch_change_tracked.
  - destruct (keydown_listener w); [|done].
    eapply ripples_tracked_anim_part; [apply try_catch_log_anim_part|].
    destruct (darkModeToggle w) as [c|] eqn:Hc.
    + rewrite (onCtrlD_widget w c) by done. by apply dispatch_change_tracked.
    + by rewrite onCtrlD_no_widget.
  - case_match; [|done].
    eapply ripples_tracked_anim_part; [apply try_catch_log_anim_part|].
    unfold ThemeManager.onPreferenceChange, ThemeManager.getStoredTheme,
      localStorage_getItem, bind, ret.
    cbn [with_os_pref storage_mode local_storage].
    destruct (storage_mode w); try done;
      (destruct (local_storage w !! "theme") as [s|];
       [destruct (decide (s = "")); [|done]|]);
      (eapply ripples_tracked_anim_part; [apply setTheme_anim_part|done]).
  - destruct (timers w !! i) as [[d a]|] eqn:Hi; [|done].
    destruct Ht as (Hs & Hn & Hf). unfold shown_ripples in Hs.
    unfold run_timer, ripples_tracked, shown_ripples, with_timers.
    cbn [theme_toggle_label timers next_node].
    destruct (theme_toggle_label w) as [l|] eqn:Hl.
    + destruct a as [|n]; unfold with_label; cbn [theme_toggle_label timers next_node ripples].
      * rewrite (ripple_ids_delete_reset _ _ d) by done. done.
      * rewrite (ripple_ids_delete _ _ d n) by done. rewrite Hs.
        split; [done|]. split; [by apply NoDup_filter|].
        apply Forall_forall. intros k [_ Hk]%list_elem_of_filter.
        rewrite Forall_forall in Hf. by apply Hf.
    + cbn [theme_toggle_label timers next_node]. destruct a as [|n].
      * rewrite (ripple_ids_delete_reset _ _ d) by done. done.
      * apply ripple_ids_lookup in Hi. rewrite <- Hs in Hi. by apply elem_of_nil in Hi.
Qed.

(** X2. The feedback animation leaks no ripple.  If, to begin with, the
    ripples in the label are exactly those with a pending removal (as on a
    freshly loaded page, which has neither), then after any events this is
    still so: every ripple [toggleTheme] appended has its [ripple.remove()]
    pending, node ids are never reused, and once no removal is pending the
    label holds no ripple. *)
Theorem ripples_never_leak (w : World) (es : list Event) :
  ripples_tracked w →
  ripples_tracked (run es w) ∧
  (ripple_ids (timers (run es w)) = [] → shown_ripples (run es w) = []).
Proof.
  intros Ht.
  assert (H : ripples_tracked (run es w)).
  { revert w Ht. induction es as [|e es IH]; intros w Ht; [done|].
    cbn [run]. apply IH. by apply step_tracked. }
  split; [done|]. intros E. destruct H as (Hs & _). by rewrite Hs.
Qed.

Lemma ripples_never_leak_witness :
  let w := run [UserToggle; UserToggle; TimerFires 1; TimerFires 0; TimerFires 1; TimerFires 0]
             (DOMContentLoaded None sample_page) in
  ripples_tracked w ∧ (ripple_ids (timers w) = [] → shown_ripples w = []).
Proof.
  apply (ripples_never_leak (DOMContentLoaded None sample_page)
           [UserToggle; UserToggle; TimerFires 1; TimerFires 0; TimerFires 1; TimerFires 0]).
  split; [reflexivity|]. split; [apply NoDup_nil_2|apply Forall_nil_2].
Defined.

(** ** Theme: a page without the checkbox *)

Lemma constructor_without_widget (w : World) :
  darkModeToggle w = None →
  ∃ e w', ThemeManager.constructor w = (Throw e, w') ∧
          darkModeToggle w' = None ∧
          change_listener w' = change_listener w ∧
          media_listener w' = media_listener w ∧
          keydown_listener w' = keydown_listener w ∧
          console_errors w' = console_errors w.
Proof.
  intros Hc. destruct (decide (storage_mode w = Functional)) as [Hm|Hm].
  - eexists _, _. split; [by apply constructor_no_widget|]. done.
  - destruct (decide (storage_mode w = AccessDenied)) as [Hd|Hd].
    + exists SecurityError, w. split; [|done].
      unfold ThemeManager.constructor, bind. by rewrite resolveInitialTheme_denied.
    + eexists _, _. split.
      * unfold ThemeManager.constructor, bind at 1.
        rewrite resolveInitialTheme_readable by done.
        unfold set_currentTheme, ThemeManager.init, get_currentTheme, bind at 1 2 3.
        cbn [currentTheme with_currentTheme].
        rewrite setTheme_storage_failure by done. reflexivity.
      * done.
Qed.

Lemma step_inert (e : Event) (w : World) :
  darkModeToggle w = None →
  no_listeners w →
  darkModeToggle (step e w) = None ∧ no_listeners (step e w) ∧
  observe (step e w) = observe w ∧ console_errors (step e w) = console_errors w.
Proof.
  intros Hc (L1 & L2 & L3). destruct e as [| |p|i]; cbn [step].
  - by rewrite Hc.
  - by rewrite L3.
  - by rewrite L2.
  - destruct (timers w !! i) as [[d a]|]; [|done].
    unfold run_timer, no_listeners, observe. cbn [with_timers theme_toggle_label].
    destruct (theme_toggle_label w) as [l|]; [destruct a|]; done.
Qed.

(** X3. A page without the toggle checkbox never reacts.  Whatever the
    storage mode, the constructor throws before it registers a listener;
    the page initializer logs that one error and, since the exception
    skips the rest of the initializer, installs no keyboard shortcut; from
    then on no event (click, Ctrl/Cmd+D, OS change, timer) changes a theme
    surface or logs anything. *)
Theorem page_without_checkbox_is_inert
    (w0 : World) (failure : option Exn) (es : list Event) :
  darkModeToggle w0 = None →
  no_listeners w0 →
  let w1 := DOMContentLoaded failure w0 in
  no_listeners w1 ∧
  (∃ e, console_errors w1 = console_errors w0 ++ [e]) ∧
  observe (run es w1) = observe w1 ∧
  console_errors (run es w1) = console_errors w1.
Proof.
  intros Hc Hl w1.
  destruct (constructor_without_widget w0 Hc) as (e & w' & E & Hc' & L1 & L2 & L3 & Hce).
  assert (H1 : darkModeToggle w1 = None ∧ no_listeners w1 ∧
               console_errors w1 = console_errors w0 ++ [e]).
  { subst w1. unfold DOMContentLoaded, try_catch_log, bind. rewrite E.
    unfold no_listeners, with_console_error. cbn.
    destruct Hl as (? & ? & ?). rewrite Hce. repeat split; congruence. }
  destruct H1 as (Hc1 & Hl1 & Hce1).
  split; [done|]. split; [by exists e|].
  clear -Hc1 Hl1. revert Hc1 Hl1. generalize w1. clear w1.
  induction es as [|ev es IH]; intros w Hc Hl; [done|].
  cbn [run]. destruct (step_inert ev w Hc Hl) as (A & B & C & D).
  destruct (IH _ A B) as [IH1 IH2]. split; congruence.
Qed.

Lemma page_without_checkbox_is_inert_witness :
  let w1 := DOMContentLoaded None no_widget_page in
  no_listeners w1 ∧
  (∃ e, console_errors w1 = console_errors no_widget_page ++ [e]) ∧
  observe (run [UserToggle; CtrlD; OsChange PrefersDark] w1) = observe w1 ∧
  console_errors (run [UserToggle; CtrlD; OsChange PrefersDark] w1) = console_errors w1.
Proof.
  apply (page_without_checkbox_is_inert no_widget_page None
           [UserToggle; CtrlD; OsChange PrefersDark]).
  - reflexivity.
  - repeat split.
Defined.

(** ** Theme: the shortcut, the OS listener, page load *)

(** X4. With the keydown listener installed and the checkbox present,
    Ctrl/Cmd+D leaves the page exactly as a click on the checkbox does:
    the handler flips [checked] and dispatches 'change' itself, which is
    what the browser does on a click. *)
Theorem shortcut_acts_as_click (w : World) :
  keydown_listener w = true →
  widget_present w →
  step CtrlD w = step UserToggle w.
Proof.
  intros Hk [c Hc]. cbn [step]. rewrite Hk, Hc.
  unfold run_listener, try_catch_log. by rewrite (onCtrlD_widget w c).
Qed.

Lemma shortcut_acts_as_click_witness :
  step CtrlD (DOMContentLoaded None sample_page) =
  step UserToggle (DOMContentLoaded None sample_page).
Proof.
  apply (shortcut_acts_as_click (DOMContentLoaded None sample_page)).
  - reflexivity.
  - eexists. reflexivity.
Defined.

(** X5. When the media-query listener runs while nothing is stored under
    "theme" (storage working, checkbox present), it applies the OS value
    with [setTheme], which stores it; so the listener applies at most one
    OS change: after any further events it returns without calling
    [setTheme] again. *)
Theorem os_update_persists_itself
    (w : World) (b b' : bool) (es : list Event) :
  storage_functional w →
  widget_present w →
  local_storage w !! "theme" = None →
  ∃ w1, ThemeManager.onPreferenceChange b w = (Ok (), w1) ∧
        currentTheme w1 = (if b then "dark" else "light") ∧
        local_storage w1 !! "theme" = Some (if b then "dark" else "light") ∧
        ThemeManager.onPreferenceChange b' (run es w1) = (Ok (), run es w1).
Proof.
  intros Hm [c Hc] Hst.
  set (t := if b then "dark" else "light").
  exists (themed t c w).
  assert (E : ThemeManager.onPreferenceChange b w = (Ok (), themed t c w)).
  { unfold ThemeManager.onPreferenceChange, ThemeManager.getStoredTheme,
      localStorage_getItem, bind. rewrite Hm, Hst. by apply setTheme_functional. }
  split; [done|]. split; [done|].
  assert (Hst1 : local_storage (themed t c w) !! "theme" = Some t).
  { unfold themed. cbn. apply lookup_insert_eq. }
  split; [done|].
  assert (Hp : choice_persisted (themed t c w)).
  { exists t. split; [done|]. subst t. by destruct b. }
  destruct (run_keeps_choice es _ Hp) as [Hm' Hp'].
  apply onPreferenceChange_persisted; [done|].
  rewrite Hm'. unfold themed. cbn. rewrite Hm. done.
Qed.

Lemma os_update_persists_itself_witness :
  ∃ w1, ThemeManager.onPreferenceChange true sample_page = (Ok (), w1) ∧
        currentTheme w1 = "dark" ∧
        local_storage w1 !! "theme" = Some "dark" ∧
        ThemeManager.onPreferenceChange false (run [OsChange PrefersLight] w1)
          = (Ok (), run [OsChange PrefersLight] w1).
Proof.
  apply (os_update_persists_itself sample_page true false [OsChange PrefersLight]).
  - reflexivity.
  - eexists. reflexivity.
  - reflexivity.
Defined.

(** X6. Page load on a page with working storage and the checkbox: the
    'change' and media-query listeners are registered and the resolved
    theme is current.  If no later component throws, the keydown listener
    is installed too and nothing is logged; if one throws, that error is
    logged once and the keydown listener is not installed, but the theme
    listeners stay registered. *)
Theorem page_load_registers_listeners (w0 : World) (failure : option Exn) :
  storage_functional w0 →
  widget_present w0 →
  let w1 := DOMContentLoaded failure w0 in
  change_listener w1 = true ∧
  media_listener w1 = true ∧
  currentTheme w1 = resolved w0 ∧
  match failure with
  | None => keydown_listener w1 = true ∧ console_errors w1 = console_errors w0
  | Some e => keydown_listener w1 = keydown_listener w0 ∧
              console_errors w1 = console_errors w0 ++ [e]
  end.
Proof.
  intros Hm [c Hc]. cbn zeta.
  unfold DOMContentLoaded, try_catch_log, bind.
  rewrite (constructor_functional w0 c) by done.
  unfold other_components, KeyboardNavigation.constructor, KeyboardNavigation.init,
    ret, throw.
  by destruct failure.
Qed.

Lemma page_load_registers_listeners_witness :
  let w1 := DOMContentLoaded (Some TypeError) sample_page in
  change_listener w1 = true ∧
  media_listener w1 = true ∧
  currentTheme w1 = resolved sample_page ∧
  keydown_listener w1 = keydown_listener sample_page ∧
  console_errors w1 = console_errors sample_page ++ [TypeError].
Proof.
  apply (page_load_registers_listeners sample_page (Some TypeError)).
  - reflexivity.
  - eexists. reflexivity.
Defined.

(** ** Keyboard navigation along the nav links *)

Lemma indexOf_from_lookup (l : list nat) (x : nat) (i : Z) (k : nat) :
  NoDup l → l !! k = Some x → indexOf_from i l x = (i + Z.of_nat k)%Z.
Proof.
  revert i k. induction l as [|y l IH]; intros i k Hn Hk; [done|].
  apply NoDup_cons in Hn as [Hy Hn]. cbn [indexOf_from].
  destruct k as [|k]; cbn in Hk.
  - injection Hk as ->. rewrite decide_True by done. lia.
  - rewrite decide_False.
    + rewrite (IH _ k) by done. lia.
    + intros ->. apply Hy. by apply list_elem_of_lookup_2 in Hk.
Qed.

Lemma at_index_of_nat {A : Type} (l : list A) (k : nat) :
  at_index l (Z.of_nat k) = l !! k.
Proof. unfold at_index. rewrite decide_True by lia. by rewrite Nat2Z.id. Qed.

Lemma arrow_key_is_no_shortcut (e : KeyEvent) :
  forward_key (key e) ∨ backward_key (key e) → is_theme_shortcut e = false.
Proof.
  unfold is_theme_shortcut, forward_key, backward_key.
  intros H. rewrite bool_decide_eq_false_2; [by rewrite andb_false_r|].
  intros E. rewrite E in H. by destruct H as [[|]|[|]].
Qed.

Lemma focus_at_link (p : KeyPage) (k x : nat) :
  navLinks (kp_focus p) !! k = Some x →
  focusable (kp_focus p) x = true →
  focus_at (Z.of_nat k) p =
    (Ok (), mkKeyPage (kp_world p) (focus_moved x (kp_focus p)) true).
Proof.
  intros Hk Hf. unfold focus_at. rewrite at_index_of_nat, Hk.
  unfold focus. by rewrite Hf.
Qed.

Lemma next_pos_lt (i n : nat) : i < n → next_pos i n < n.
Proof. intros. unfold next_pos. apply Nat.mod_upper_bound. lia. Qed.

Lemma prev_pos_lt (i n : nat) : i < n → prev_pos i n < n.
Proof. intros. unfold prev_pos. case_decide; lia. Qed.

Lemma focus_on_link_moved (i k x : nat) (f : Focus) :
  focus_on_link i f → navLinks f !! k = Some x → focus_on_link k (focus_moved x f).
Proof.
  intros (Hn & _ & Hf) Hk. split; [done|]. split; [|done]. by exists x.
Qed.

Lemma onArrowKeys_forward (e : KeyEvent) (p : KeyPage) (i : nat) :
  focus_on_link i (kp_focus p) →
  forward_key (key e) →
  ∃ x, navLinks (kp_focus p) !! next_pos i (length (navLinks (kp_focus p))) = Some x ∧
       onArrowKeys e p = (Ok (), mkKeyPage (kp_world p) (focus_moved x (kp_focus p)) true).
Proof.
  intros (Hn & (a & Hi & Ha) & Hf) Hk.
  pose proof (lookup_lt_Some _ _ _ Hi) as Hlt.
  destruct (lookup_lt_is_Some_2 (navLinks (kp_focus p))
              (next_pos i (length (navLinks (kp_focus p)))))
    as [x Hx]; [by apply next_pos_lt|].
  exists x. split; [done|].
  unfold onArrowKeys. rewrite Ha.
  rewrite decide_True by (by eapply list_elem_of_lookup_2).
  cbn zeta. rewrite decide_True by exact Hk.
  unfold indexOf. rewrite (indexOf_from_lookup _ _ _ i) by done.
  replace (Z.rem (0 + Z.of_nat i + 1) (Z.of_nat (length (navLinks (kp_focus p)))))
    with (Z.of_nat (next_pos i (length (navLinks (kp_focus p))))).
  - apply focus_at_link; [done|]. apply Hf. by eapply list_elem_of_lookup_2.
  - unfold next_pos. rewrite Nat2Z.inj_mod, Z.rem_mod_nonneg by lia.
    f_equal. lia.
Qed.

Lemma onArrowKeys_backward (e : KeyEvent) (p : KeyPage) (i : nat) :
  focus_on_link i (kp_focus p) →
  backward_key (key e) →
  ∃ x, navLinks (kp_focus p) !! prev_pos i (length (navLinks (kp_focus p))) = Some x ∧
       onArrowKeys e p = (Ok (), mkKeyPage (kp_world p) (focus_moved x (kp_focus p)) true).
Proof.
  intros (Hn & (a & Hi & Ha) & Hf) Hk.
  pose proof (lookup_lt_Some _ _ _ Hi) as Hlt.
  destruct (lookup_lt_is_Some_2 (navLinks (kp_focus p))
              (prev_pos i (length (navLinks (kp_focus p)))))
    as [x Hx]; [by apply prev_pos_lt|].
  exists x. split; [done|].
  unfold onArrowKeys. rewrite Ha.
  rewrite decide_True by (by eapply list_elem_of_lookup_2).
  cbn zeta.
  rewrite decide_False by (intros Hfw; unfold backward_key in Hk;
    destruct Hfw as [E|E]; rewrite E in Hk; by destruct Hk).
  rewrite decide_True by exact Hk.
  unfold indexOf. rewrite (indexOf_from_lookup _ _ _ i) by done.
  match goal with |- focus_at ?z _ = _ =>
    replace z with (Z.of_nat (prev_pos i (length (navLinks (kp_focus p))))) end.
  - apply focus_at_link; [done|]. apply Hf. by eapply list_elem_of_lookup_2.
  - unfold prev_pos. repeat case_decide; lia.
Qed.

(** X7. With the focus on the nav link at position [i] of [n] (distinct,
    focusable links), ArrowDown or ArrowRight moves the focus to the link
    at position [(i + 1) mod n], so from the last link to the first;
    ArrowUp or ArrowLeft moves it to position [i - 1], and from the first
    link to the last.  Either way the listener returns, the event's default
    is prevented, and the theme state is not touched, whatever the
    modifier keys. *)
Theorem arrow_keys_move_focus (e : KeyEvent) (p : KeyPage) (i : nat) :
  focus_on_link i (kp_focus p) →
  forward_key (key e) ∨ backward_key (key e) →
  let n := length (navLinks (kp_focus p)) in
  let j := if decide (forward_key (key e)) then next_pos i n else prev_pos i n in
  ∃ x, navLinks (kp_focus p) !! j = Some x ∧
       onKeydown e p = (Ok (), mkKeyPage (kp_world p) (focus_moved x (kp_focus p)) true) ∧
       focus_on_link j (focus_moved x (kp_focus p)) ∧
       (i = n - 1 → forward_key (key e) → j = 0) ∧
       (i = 0 → backward_key (key e) → j = n - 1).
Proof.
  intros Hf Hk n j.
  assert (Hlt : i < n).
  { destruct Hf as (_ & (a & Hi & _) & _). by apply lookup_lt_Some in Hi. }
  unfold onKeydown. rewrite (arrow_key_is_no_shortcut e Hk).
  assert (Hex : forward_key (key e) → ¬ backward_key (key e)).
  { unfold forward_key, backward_key. intros [E|E] [E'|E']; by rewrite E in E'. }
  subst j. case_decide as Hd.
  - destruct (onArrowKeys_forward e p i Hf Hd) as (x & Hx & E).
    exists x. split; [done|]. split; [done|].
    split; [by eapply focus_on_link_moved|]. split.
    + intros -> _. unfold next_pos. replace (n - 1 + 1) with n by lia.
      apply Nat.Div0.mod_same.
    + intros _ Hb. by destruct (Hex Hd).
  - destruct Hk as [Hk|Hk]; [done|].
    destruct (onArrowKeys_backward e p i Hf Hk) as (x & Hx & E).
    exists x. split; [done|]. split; [done|].
    split; [by eapply focus_on_link_moved|]. split; [done|].
    intros -> _. unfold prev_pos. by rewrite decide_True.
Qed.

Lemma sample_focus_on_last_link : focus_on_link 3 sample_focus.
Proof.
  split; [|split].
  - apply (bool_decide_unpack _). vm_compute. exact I.
  - exists 13. split; reflexivity.
  - reflexivity.
Qed.

Lemma arrow_keys_move_focus_witness :
  let e := mkKeyEvent true false "ArrowRight" in
  let p := sample_key_page in
  let n := length (navLinks (kp_focus p)) in
  let j := if decide (forward_key (key e)) then next_pos 3 n else prev_pos 3 n in
  ∃ x, navLinks (kp_focus p) !! j = Some x ∧
       onKeydown e p = (Ok (), mkKeyPage (kp_world p) (focus_moved x (kp_focus p)) true) ∧
       focus_on_link j (focus_moved x (kp_focus p)) ∧
       (3 = n - 1 → forward_key (key e) → j = 0) ∧
       (3 = 0 → backward_key (key e) → j = n - 1).
Proof.
  apply (arrow_keys_move_focus (mkKeyEvent true false "ArrowRight") sample_key_page 3).
  - exact sample_focus_on_last_link.
  - left. right. reflexivity.
Defined.

Lemma keydown_forward (e : KeyEvent) (p : KeyPage) (i : nat) :
  focus_on_link i (kp_focus p) →
  forward_key (key e) →
  ∃ x, navLinks (kp_focus p) !! next_pos i (length (navLinks (kp_focus p))) = Some x ∧
       keydown e p = mkKeyPage (kp_world p) (focus_moved x (kp_focus p)) true.
Proof.
  intros Hf Hk.
  destruct (onArrowKeys_forward e (mkKeyPage (kp_world p) (kp_focus p) false) i Hf Hk)
    as (x & Hx & E).
  exists x. split; [done|].
  unfold keydown, onKeydown. rewrite arrow_key_is_no_shortcut by (by left).
  by rewrite E.
Qed.

Lemma keydown_backward (e : KeyEvent) (p : KeyPage) (i : nat) :
  focus_on_link i (kp_focus p) →
  backward_key (key e) →
  ∃ x, navLinks (kp_focus p) !! prev_pos i (length (navLinks (kp_focus p))) = Some x ∧
       keydown e p = mkKeyPage (kp_world p) (focus_moved x (kp_focus p)) true.
Proof.
  intros Hf Hk.
  destruct (onArrowKeys_backward e (mkKeyPage (kp_world p) (kp_focus p) false) i Hf Hk)
    as (x & Hx & E).
  exists x. split; [done|].
  unfold keydown, onKeydown. rewrite arrow_key_is_no_shortcut by (by right).
  by rewrite E.
Qed.

Lemma prev_next_pos (i n : nat) : i < n → prev_pos (next_pos i n) n = i.
Proof.
  intros Hlt. unfold prev_pos, next_pos.
  destruct (decide (i + 1 = n)) as [E|E].
  - rewrite E, Nat.Div0.mod_same. rewrite decide_True by done. lia.
  - rewrite Nat.mod_small by lia. rewrite decide_False by lia. lia.
Qed.

Lemma next_prev_pos (i n : nat) : i < n → next_pos (prev_pos i n) n = i.
Proof.
  intros Hlt. unfold prev_pos, next_pos. case_decide as E.
  - subst. replace (n - 1 + 1) with n by lia. apply Nat.Div0.mod_same.
  - replace (i - 1 + 1) with i by lia. by apply Nat.mod_small.
Qed.

Lemma focus_moved_back (f : Focus) (a x : nat) :
  activeElement f = Some a → focus_moved a (focus_moved x f) = f.
Proof. destruct f. cbn. by intros ->. Qed.

(** X8. Stepping forwards and then backwards along the nav links (or
    backwards and then forwards) brings the focus back to the link it
    started on, also across the wrap-around at either end; neither key
    press touches the theme state. *)
Theorem arrow_keys_round_trip (ef eb : KeyEvent) (p : KeyPage) (i : nat) :
  focus_on_link i (kp_focus p) →
  forward_key (key ef) →
  backward_key (key eb) →
  keydown eb (keydown ef p) = mkKeyPage (kp_world p) (kp_focus p) true ∧
  keydown ef (keydown eb p) = mkKeyPage (kp_world p) (kp_focus p) true.
Proof.
  intros Hf Hkf Hkb.
  pose proof Hf as (Hn & (a & Hi & Ha) & Hfo).
  pose proof (lookup_lt_Some _ _ _ Hi) as Hlt.
  split.
  - destruct (keydown_forward ef p i Hf Hkf) as (x & Hx & E). rewrite E.
    pose proof (focus_on_link_moved i _ x _ Hf Hx) as Hf1.
    destruct (keydown_backward eb (mkKeyPage (kp_world p) (focus_moved x (kp_focus p)) true)
                _ Hf1 Hkb) as (y & Hy & E').
    rewrite E'. cbn [kp_world kp_focus navLinks focus_moved] in *.
    rewrite prev_next_pos in Hy by done.
    assert (y = a) as -> by congruence.
    by rewrite (focus_moved_back (kp_focus p) a x).
  - destruct (keydown_backward eb p i Hf Hkb) as (x & Hx & E). rewrite E.
    pose proof (focus_on_link_moved i _ x _ Hf Hx) as Hf1.
    destruct (keydown_forward ef (mkKeyPage (kp_world p) (focus_moved x (kp_focus p)) true)
                _ Hf1 Hkf) as (y & Hy & E').
    rewrite E'. cbn [kp_world kp_focus navLinks focus_moved] in *.
    rewrite next_prev_pos in Hy by done.
    assert (y = a) as -> by congruence.
    by rewrite (focus_moved_back (kp_focus p) a x).
Qed.

Lemma arrow_keys_round_trip_witness :
  let ef := mkKeyEvent false false "ArrowDown" in
  let eb := mkKeyEvent false false "ArrowLeft" in
  keydown eb (keydown ef sample_key_page)
    = mkKeyPage (kp_world sample_key_page) (kp_focus sample_key_page) true ∧
  keydown ef (keydown eb sample_key_page)
    = mkKeyPage (kp_world sample_key_page) (kp_focus sample_key_page) true.
Proof.
  apply (arrow_keys_round_trip (mkKeyEvent false false "ArrowDown")
           (mkKeyEvent false false "ArrowLeft") sample_key_page 3).
  - exact sample_focus_on_last_link.
  - left. reflexivity.
  - right. reflexivity.
Defined.

Lemma keydowns_forward (e : KeyEvent) (k : nat) (p : KeyPage) (i : nat) :
  focus_on_link i (kp_focus p) →
  forward_key (key e) →
  let n := length (navLinks (kp_focus p)) in
  ∃ x, navLinks (kp_focus p) !! ((i + k) mod n) = Some x ∧
       kp_focus (keydowns (replicate k e) p) = focus_moved x (kp_focus p) ∧
       kp_world (keydowns (replicate k e) p) = kp_world p.
Proof.
  intros Hf Hk. cbn zeta. revert p i Hf.
  induction k as [|k IH]; intros p i Hf.
  - pose proof Hf as (_ & (a & Hi & Ha) & _).
    pose proof (lookup_lt_Some _ _ _ Hi) as Hlt.
    exists a. rewrite Nat.add_0_r, Nat.mod_small by done.
    split; [done|]. split; [|done]. cbn. destruct (kp_focus p). cbn in *. by rewrite Ha.
  - destruct (keydown_forward e p i Hf Hk) as (x & Hx & E).
    pose proof (focus_on_link_moved i _ x _ Hf Hx) as Hf1.
    cbn [replicate keydowns]. rewrite E.
    set (p1 := mkKeyPage (kp_world p) (focus_moved x (kp_focus p)) true).
    destruct (IH p1 _ Hf1) as (y & Hy & E1 & E2).
    cbn [p1 kp_focus kp_world focus_moved navLinks] in *.
    exists y. split; [|done].
    rewrite <- Hy. f_equal. unfold next_pos.
    rewrite Nat.Div0.add_mod_idemp_l. f_equal. lia.
Qed.

Lemma keydowns_backward (e : KeyEvent) (k : nat) (p : KeyPage) (i : nat) :
  focus_on_link ((i + k) mod length (navLinks (kp_focus p))) (kp_focus p) →
  i < length (navLinks (kp_focus p)) →
  backward_key (key e) →
  ∃ x, navLinks (kp_focus p) !! i = Some x ∧
       kp_focus (keydowns (replicate k e) p) = focus_moved x (kp_focus p) ∧
       kp_world (keydowns (replicate k e) p) = kp_world p.
Proof.
  intros Hf Hlt Hk. revert p i Hf Hlt.
  induction k as [|k IH]; intros p i Hf Hlt.
  - rewrite Nat.add_0_r, Nat.mod_small in Hf by done.
    pose proof Hf as (_ & (a & Hi & Ha) & _).
    exists a. split; [done|]. split; [|done]. cbn. destruct (kp_focus p). cbn in *. by rewrite Ha.
  - destruct (keydown_backward e p _ Hf Hk) as (x & Hx & E).
    pose proof (focus_on_link_moved _ _ x _ Hf Hx) as Hf1.
    cbn [replicate keydowns]. rewrite E.
    set (p1 := mkKeyPage (kp_world p) (focus_moved x (kp_focus p)) true).
    assert (Hpos : prev_pos ((i + S k) mod length (navLinks (kp_focus p)))
                     (length (navLinks (kp_focus p)))
                   = (i + k) mod length (navLinks (kp_focus p))).
    { replace (i + S k) with ((i + k) + 1) by lia.
      rewrite <- Nat.Div0.add_mod_idemp_l.
      apply (prev_next_pos ((i + k) mod _)). apply Nat.mod_upper_bound. lia. }
    rewrite Hpos in Hf1, Hx.
    destruct (IH p1 i Hf1 Hlt) as (y & Hy & E1 & E2).
    cbn [p1 kp_focus kp_world focus_moved navLinks] in *.
    by exists y.
Qed.

(** X9. Pressing a forward key, or a backward key, as many times as there
    are nav links takes the focus once around and back to the link it
    started on; the theme state is not touched on the way. *)
Theorem arrow_keys_full_cycle (e : KeyEvent) (p : KeyPage) (i : nat) :
  focus_on_link i (kp_focus p) →
  forward_key (key e) ∨ backward_key (key e) →
  let p' := keydowns (replicate (length (navLinks (kp_focus p))) e) p in
  kp_focus p' = kp_focus p ∧ kp_world p' = kp_world p.
Proof.
  intros Hf Hk. cbn zeta.
  pose proof Hf as (_ & (a & Hi & Ha) & _).
  pose proof (lookup_lt_Some _ _ _ Hi) as Hlt.
  assert (Hmod : (i + length (navLinks (kp_focus p))) mod length (navLinks (kp_focus p)) = i).
  { rewrite <- Nat.Div0.add_mod_idemp_r, Nat.Div0.mod_same, Nat.add_0_r.
    by apply Nat.mod_small. }
  assert (Hback : ∀ x, navLinks (kp_focus p) !! i = Some x →
                       focus_moved x (kp_focus p) = kp_focus p).
  { intros x Hx. assert (x = a) as -> by congruence.
    destruct (kp_focus p). cbn in *. by rewrite Ha. }
  destruct Hk as [Hk|Hk].
  - destruct (keydowns_forward e (length (navLinks (kp_focus p))) p i Hf Hk)
      as (x & Hx & E1 & E2).
    rewrite Hmod in Hx. split; [|done]. rewrite E1. by apply Hback.
  - destruct (keydowns_backward e (length (navLinks (kp_focus p))) p i)
      as (x & Hx & E1 & E2); [by rewrite Hmod|done|done|].
    split; [|done]. rewrite E1. by apply Hback.
Qed.

Lemma arrow_keys_full_cycle_witness :
  let e := mkKeyEvent false false "ArrowUp" in
  let p' := keydowns (replicate (length (navLinks (kp_focus sample_key_page))) e)
              sample_key_page in
  kp_focus p' = kp_focus sample_key_page ∧ kp_world p' = kp_world sample_key_page.
Proof.
  apply (arrow_keys_full_cycle (mkKeyEvent false false "ArrowUp") sample_key_page 3).
  - exact sample_focus_on_last_link.
  - right. left. reflexivity.
Defined.

(** X10. The listener leaves an event alone unless it is the theme shortcut
    or an arrow key pressed while a nav link has the focus: with the focus
    on some other element, or with any other key, it returns without
    calling [preventDefault] and changes nothing. *)
Theorem other_keys_pass_through (e : KeyEvent) (p : KeyPage) (a : nat) :
  is_theme_shortcut e = false →
  activeElement (kp_focus p) = Some a →
  a ∉ navLinks (kp_focus p) ∨ ¬ (forward_key (key e) ∨ backward_key (key e)) →
  onKeydown e p = (Ok (), p).
Proof.
  intros Hs Ha Hor. unfold onKeydown, onArrowKeys. rewrite Hs, Ha.
  destruct (decide (a ∈ navLinks (kp_focus p))) as [Hin|Hin]; [|done].
  destruct Hor as [Hnot|Hnk]; [done|]. cbn zeta.
  rewrite decide_False by (intros H; apply Hnk; by left).
  by rewrite decide_False by (intros H; apply Hnk; by right).
Qed.

Lemma other_keys_pass_through_witness :
  onKeydown (mkKeyEvent false false "Tab") sample_key_page = (Ok (), sample_key_page).
Proof.
  apply (other_keys_pass_through (mkKeyEvent false false "Tab") sample_key_page 13).
  - reflexivity.
  - reflexivity.
  - right. intros [[H|H]|[H|H]]; discriminate H.
Defined.

Lemma onArrowKeys_world (e : KeyEvent) (p : KeyPage) :
  kp_world (snd (onArrowKeys e p)) = kp_world p.
Proof.
  unfold onArrowKeys, focus_at.
  repeat (case_match; try done).
Qed.

(** X11. The listener changes the theme on the shortcut and on nothing
    else.  For every event that is not Ctrl/Cmd+D the theme surfaces after
    the key press are those before it.  For Ctrl/Cmd+D, with some element
    focused, the theme state afterwards is exactly what the shortcut
    event of the theme model gives, the focus stays where it was, and the
    default is prevented. *)
Theorem keydown_theme_only_on_shortcut (e : KeyEvent) (p : KeyPage) (a : nat) :
  activeElement (kp_focus p) = Some a →
  keydown_listener (kp_world p) = true →
  if is_theme_shortcut e
  then keydown e p = mkKeyPage (step CtrlD (kp_world p)) (kp_focus p) true
  else observe (kp_world (keydown e p)) = observe (kp_world p).
Proof.
  intros Ha Hl. destruct (is_theme_shortcut e) eqn:Hs.
  - cbn [step]. rewrite Hl. unfold keydown, onKeydown, run_listener, try_catch_log.
    rewrite Hs. cbn [kp_world kp_focus].
    assert (Hkey : key e = "d").
    { unfold is_theme_shortcut in Hs. apply andb_true_iff in Hs as [_ Hs].
      by apply bool_decide_eq_true_1 in Hs. }
    destruct (KeyboardNavigation.onCtrlD (kp_world p)) as [[[]|x] w']; [|done].
    unfold onArrowKeys. cbn [kp_focus]. rewrite Ha.
    destruct (decide (a ∈ navLinks (kp_focus p))); [|done]. cbn zeta.
    rewrite !decide_False; [done|..]; rewrite Hkey; by intros [|].
  - unfold keydown, onKeydown. rewrite Hs.
    pose proof (onArrowKeys_world e (mkKeyPage (kp_world p) (kp_focus p) false)) as Hw.
    destruct (onArrowKeys e _) as [[[]|x] p'] eqn:E; cbn [snd kp_world] in *;
      by rewrite Hw.
Qed.

Lemma keydown_theme_only_on_shortcut_witness :
  keydown (mkKeyEvent false true "d") sample_key_page
  = mkKeyPage (step CtrlD (kp_world sample_key_page)) (kp_focus sample_key_page) true.
Proof.
  apply (keydown_theme_only_on_shortcut (mkKeyEvent false true "d") sample_key_page 13).
  - reflexivity.
  - reflexivity.
Defined.

(** ** The navbar on scroll *)

Lemma fold_current_last (y : Q) (ss : list Section) (acc : string) :
  fold_left (λ cur s, if in_view y s then section_id s else cur) ss acc =
  match last_in_view y ss with
  | Some s => section_id s
  | None => acc
  end.
Proof.
  unfold last_in_view. revert acc. induction ss as [|s ss IH]; intros acc; [done|].
  cbn [fold_left]. rewrite IH.
  destruct (in_view y s) eqn:E.
  - rewrite filter_cons_True by done. rewrite last_cons.
    by destruct (last (filter _ ss)).
  - rewrite filter_cons_False by (by rewrite E). done.
Qed.

Lemma currentSection_last (y : Q) (ss : list Section) :
  currentSection y ss = default "" (section_id <$> last_in_view y ss).
Proof.
  unfold currentSection. rewrite fold_current_last. by destruct (last_in_view y ss).
Qed.

Lemma update_link_active (cur : string) (l : NavLink) :
  "active" ∈ classList (update_link cur l) ↔ href l = Some ("#" +:+ cur).
Proof.
  unfold update_link. cbn [classList].
  destruct (decide (href l = Some ("#" +:+ cur))) as [E|E];
    rewrite ?elem_of_union, ?elem_of_difference, ?elem_of_singleton;
    intuition congruence.
Qed.

Lemma update_link_other (cur c : string) (l : NavLink) :
  c ≠ "active" → c ∈ classList (update_link cur l) ↔ c ∈ classList l.
Proof.
  intros Hc. unfold update_link. cbn [classList].
  destruct (decide (href l = Some ("#" +:+ cur))) as [E|E];
    rewrite ?elem_of_union, ?elem_of_difference, ?elem_of_singleton;
    intuition congruence.
Qed.

(** X12. After [updateActiveNavLink], a nav link carries the class 'active'
    exactly when its [href] is "#" followed by the [id] of the last
    section, in document order, that contains the scroll offset (the empty
    string when no section does).  So where sections overlap the later
    one wins.  The links keep their number, order, [href] and every other
    class. *)
Theorem scroll_marks_links_of_last_section_in_view
    (p : ScrollPage) (k : nat) (l' : NavLink) :
  nav_links (NavbarEffects.updateActiveNavLink p) !! k = Some l' →
  let cur := default "" (section_id <$> last_in_view (pageYOffset p) (sections p)) in
  ∃ l, nav_links p !! k = Some l ∧
       href l' = href l ∧
       ("active" ∈ classList l' ↔ href l = Some ("#" +:+ cur)) ∧
       (∀ c, c ≠ "active" → c ∈ classList l' ↔ c ∈ classList l) ∧
       length (nav_links (NavbarEffects.updateActiveNavLink p)) = length (nav_links p).
Proof.
  unfold NavbarEffects.updateActiveNavLink. cbn [nav_links].
  rewrite list_lookup_fmap. intros Hk. cbn zeta.
  destruct (nav_links p !! k) as [l|] eqn:El; [|done].
  cbn in Hk. injection Hk as <-.
  exists l. split; [done|]. split; [done|].
  rewrite <- currentSection_last.
  split; [apply update_link_active|]. split; [|by rewrite length_fmap].
  intros c Hc. by apply update_link_other.
Qed.

Lemma scroll_marks_links_of_last_section_in_view_witness :
  let p := sample_scroll_page in
  let l' := mkNavLink (Some "#about") {["nav-link"; "active"]} in
  let cur := default "" (section_id <$> last_in_view (pageYOffset p) (sections p)) in
  ∃ l, nav_links p !! 1 = Some l ∧
       href l' = href l ∧
       ("active" ∈ classList l' ↔ href l = Some ("#" +:+ cur)) ∧
       (∀ c, c ≠ "active" → c ∈ classList l' ↔ c ∈ classList l) ∧
       length (nav_links (NavbarEffects.updateActiveNavLink p)) = length (nav_links p).
Proof.
  apply (scroll_marks_links_of_last_section_in_view sample_scroll_page 1
           (mkNavLink (Some "#about") {["nav-link"; "active"]})).
  vm_compute. reflexivity.
Defined.

(** X13. If the links that have an [href] have pairwise different ones, at
    most one link is 'active' after [updateActiveNavLink], whatever classes
    the links carried before. *)
Theorem at_most_one_active_link
    (p : ScrollPage) (i j : nat) (li lj : NavLink) :
  (∀ a b la lb, nav_links p !! a = Some la → nav_links p !! b = Some lb →
                is_Some (href la) → href la = href lb → a = b) →
  nav_links (NavbarEffects.updateActiveNavLink p) !! i = Some li →
  nav_links (NavbarEffects.updateActiveNavLink p) !! j = Some lj →
  "active" ∈ classList li →
  "active" ∈ classList lj →
  i = j.
Proof.
  intros Hd. unfold NavbarEffects.updateActiveNavLink. cbn [nav_links].
  rewrite !list_lookup_fmap. intros Hi Hj Ai Aj.
  destruct (nav_links p !! i) as [la|] eqn:Ea; [|done].
  destruct (nav_links p !! j) as [lb|] eqn:Eb; [|done].
  cbn in Hi, Hj. injection Hi as <-. injection Hj as <-.
  apply update_link_active in Ai, Aj.
  apply (Hd i j la lb); [done|done|by rewrite Ai|congruence].
Qed.

Lemma at_most_one_active_link_witness :
  1 = 1.
Proof.
  apply (at_most_one_active_link sample_scroll_page 1 1
           (mkNavLink (Some "#about") {["nav-link"; "active"]})
           (mkNavLink (Some "#about") {["nav-link"; "active"]})).
  - intros [|[|[|a]]] [|[|[|b]]] la lb Ha Hb Hs E; try done;
      cbn in Ha, Hb; simplify_eq; done.
  - vm_compute. reflexivity.
  - vm_compute. reflexivity.
  - apply elem_of_union_r, elem_of_singleton. reflexivity.
  - apply elem_of_union_r, elem_of_singleton. reflexivity.
Defined.

Lemma in_view_bounds (y : Q) (s : Section) :
  in_view y s = true ↔
  (inject_Z (offsetTop s - 100) <= y)%Q ∧
  (y < inject_Z (offsetTop s - 100 + clientHeight s))%Q.
Proof.
  unfold in_view, Qlt_bool. cbn zeta.
  rewrite andb_true_iff, negb_true_iff, Qle_bool_iff.
  split; intros [H1 H2]; (split; [done|]).
  - apply Qnot_le_lt. intros H. apply Qle_bool_iff in H. congruence.
  - apply not_true_is_false. intros H. apply Qle_bool_iff in H.
    by apply Qlt_not_le in H2.
Qed.

Lemma stacked_in_view_unique (y : Q) (ss : list Section) (i j : nat) (si sj : Section) :
  stacked ss →
  ss !! i = Some si → ss !! j = Some sj →
  in_view y si = true → in_view y sj = true →
  i = j.
Proof.
  intros Hst Hi Hj [Li Ui]%in_view_bounds [Lj Uj]%in_view_bounds.
  assert (H : ∀ a b sa sb, ss !! a = Some sa → ss !! b = Some sb →
              (inject_Z (offsetTop sb - 100) <= y)%Q →
              (y < inject_Z (offsetTop sa - 100 + clientHeight sa))%Q →
              ¬ a < b).
  { intros a b sa sb Ha Hb Lb Ua Hlt.
    pose proof (Hst a b sa sb Ha Hb Hlt) as Hle.
    assert (Hq : (inject_Z (offsetTop sa - 100 + clientHeight sa)
                  <= inject_Z (offsetTop sb - 100))%Q).
    { rewrite <- Zle_Qle. lia. }
    apply (Qlt_not_le _ _ Ua). by eapply Qle_trans. }
  pose proof (H i j si sj Hi Hj Lj Ui).
  pose proof (H j i sj si Hj Hi Li Uj).
  lia.
Qed.

(** X14. When the sections are stacked one below the other, the section
    whose range [offsetTop - 100, offsetTop - 100 + clientHeight) contains
    the scroll offset is the current one: after [updateActiveNavLink] the
    links pointing to it, and no others, are 'active'. *)
Theorem stacked_sections_current
    (p : ScrollPage) (i : nat) (s : Section) (k : nat) (l' : NavLink) :
  stacked (sections p) →
  sections p !! i = Some s →
  in_view (pageYOffset p) s = true →
  nav_links (NavbarEffects.updateActiveNavLink p) !! k = Some l' →
  currentSection (pageYOffset p) (sections p) = section_id s ∧
  ("active" ∈ classList l' ↔ href l' = Some ("#" +:+ section_id s)).
Proof.
  intros Hst Hi Hv Hk.
  assert (Hc : currentSection (pageYOffset p) (sections p) = section_id s).
  { rewrite currentSection_last. unfold last_in_view.
    destruct (last (filter _ (sections p))) as [s'|] eqn:El.
    - apply last_Some_elem_of in El.
      apply list_elem_of_filter in El as [Hv' Hin].
      apply list_elem_of_lookup in Hin as [j Hj].
      assert (i = j) as -> by (by eapply stacked_in_view_unique).
      by simplify_eq.
    - apply last_None in El.
      assert (Hin : s ∈ filter (λ s, in_view (pageYOffset p) s = true) (sections p)).
      { apply list_elem_of_filter. split; [done|]. by eapply list_elem_of_lookup_2. }
      rewrite El in Hin. by apply elem_of_nil in Hin. }
  split; [done|].
  revert Hk. unfold NavbarEffects.updateActiveNavLink. cbn [nav_links].
  rewrite list_lookup_fmap, Hc.
  destruct (nav_links p !! k) as [l|]; [|done]. cbn. intros [= <-].
  by rewrite update_link_active.
Qed.

Lemma sample_sections_stacked : stacked (sections sample_scroll_page).
Proof.
  intros [|[|[|i]]] [|[|[|j]]] si sj Hi Hj Hlt; cbn in Hi, Hj; simplify_eq;
    cbn; lia.
Qed.

Lemma stacked_sections_current_witness :
  let p := sample_scroll_page in
  let s := mkSection 600 800 "about" in
  let l' := mkNavLink (Some "#home") {["nav-link"]} in
  currentSection (pageYOffset p) (sections p) = section_id s ∧
  ("active" ∈ classList l' ↔ href l' = Some ("#" +:+ section_id s)).
Proof.
  apply (stacked_sections_current sample_scroll_page 1 (mkSection 600 800 "about") 0
           (mkNavLink (Some "#home") {["nav-link"]})).
  - exact sample_sections_stacked.
  - reflexivity.
  - reflexivity.
  - vm_compute. reflexivity.
Defined.

(** X15. When the scroll offset lies in no section (above the first one,
    say), [currentSection] stays the empty string: after
    [updateActiveNavLink] the 'active' links are exactly those whose
    [href] is "#", and every link to a section has lost the class. *)
Theorem no_section_in_view_marks_hash_links
    (p : ScrollPage) (k : nat) (l' : NavLink) :
  (∀ s, s ∈ sections p → in_view (pageYOffset p) s = false) →
  nav_links (NavbarEffects.updateActiveNavLink p) !! k = Some l' →
  currentSection (pageYOffset p) (sections p) = "" ∧
  ("active" ∈ classList l' ↔ href l' = Some "#").
Proof.
  intros Hno Hk.
  assert (Hc : currentSection (pageYOffset p) (sections p) = "").
  { rewrite currentSection_last. unfold last_in_view.
    destruct (last (filter _ (sections p))) as [s|] eqn:El; [|done].
    apply last_Some_elem_of, list_elem_of_filter in El as [Hv Hin].
    rewrite (Hno s Hin) in Hv. done. }
  split; [done|].
  revert Hk. unfold NavbarEffects.updateActiveNavLink. cbn [nav_links].
  rewrite list_lookup_fmap, Hc.
  destruct (nav_links p !! k) as [l|]; [|done]. cbn. intros [= <-].
  by rewrite update_link_active.
Qed.

Lemma no_section_in_view_marks_hash_links_witness :
  let p := mkScrollPage (inject_Z (-150)) 0 (Some "")
             [mkSection 0 600 "home"]
             [mkNavLink (Some "#home") {["active"]}; mkNavLink (Some "#") ∅] 0 in
  currentSection (pageYOffset p) (sections p) = "" ∧
  ("active" ∈ classList (mkNavLink (Some "#home") ∅) ↔
   href (mkNavLink (Some "#home") ∅) = Some "#").
Proof.
  apply (no_section_in_view_marks_hash_links
           (mkScrollPage (inject_Z (-150)) 0 (Some "")
              [mkSection 0 600 "home"]
              [mkNavLink (Some "#home") {["active"]}; mkNavLink (Some "#") ∅] 0)
           0 (mkNavLink (Some "#home") ∅)).
  - intros s Hs. cbn in Hs. apply list_elem_of_singleton in Hs as ->. reflexivity.
  - vm_compute. reflexivity.
Defined.

Lemma update_link_idempotent (cur : string) (l : NavLink) :
  update_link cur (update_link cur l) = update_link cur l.
Proof.
  unfold update_link. cbn [href classList].
  destruct (decide (href l = Some ("#" +:+ cur))) as [E|E]; f_equal;
    apply set_eq; intros c;
    repeat (first [rewrite elem_of_union | rewrite elem_of_difference
                   | rewrite elem_of_singleton]); tauto.
Qed.

Lemma handleScroll_navbar (p : ScrollPage) (b : string) :
  navbar p = Some b → NavbarEffects.handleScroll p = (Ok (), scrolled p).
Proof. intros H. unfold NavbarEffects.handleScroll. rewrite H. reflexivity. Qed.

Lemma handleScroll_no_navbar (p : ScrollPage) :
  navbar p = None → NavbarEffects.handleScroll p = (Throw TypeError, p).
Proof. intros H. unfold NavbarEffects.handleScroll. rewrite H. reflexivity. Qed.

(** X16. [handleScroll] is idempotent: a second scroll event at the same
    scroll offset returns the same outcome and leaves the page (navbar
    shadow, link classes, [lastScrollTop]) as the first one left it. *)
Theorem handleScroll_idempotent (p : ScrollPage) :
  NavbarEffects.handleScroll (snd (NavbarEffects.handleScroll p)) =
  NavbarEffects.handleScroll p.
Proof.
  destruct (navbar p) as [b|] eqn:Hb.
  - rewrite (handleScroll_navbar p b Hb). cbn [snd].
    rewrite (handleScroll_navbar (scrolled p) _ eq_refl).
    f_equal. unfold scrolled.
    cbn [pageYOffset documentElement_scrollTop sections nav_links].
    f_equal. rewrite <- list_fmap_compose. apply list_fmap_ext. intros i l _.
    apply update_link_idempotent.
  - rewrite (handleScroll_no_navbar p Hb). cbn [snd].
    by apply handleScroll_no_navbar.
Qed.

(** ** The certificate carousel: indicators *)

Lemma head_filter_list_find {A : Type} (P : A → Prop) `{!∀ x, Decision (P x)}
    (l : list A) :
  head (filter P l) = snd <$> list_find P l.
Proof.
  induction l as [|x l IH]; [done|].
  cbn [list_find]. destruct (decide (P x)) as [Hp|Hp].
  - by rewrite filter_cons_True.
  - rewrite filter_cons_False by done. rewrite IH.
    by destruct (list_find P l) as [[i y]|].
Qed.

Lemma activeIndex_first_active (its : list (nat * gset string)) :
  NoDup (fst <$> its) →
  indexOf_element its (querySelector_active its) =
    match first_active its with
    | Some k => Z.of_nat k
    | None => (-1)%Z
    end.
Proof.
  intros Hn. unfold querySelector_active, first_active.
  rewrite head_filter_list_find.
  destruct (list_find _ its) as [[k [a cls]]|] eqn:Ef; [|done]. cbn.
  apply list_find_Some in Ef as (Hk & _ & _).
  unfold indexOf. rewrite (indexOf_from_lookup _ _ _ k); [lia|done|].
  by rewrite list_lookup_fmap, Hk.
Qed.

(** X17. After a 'slid.bs.carousel' event, the indicator at position [k]
    is 'active' exactly when [k] is the position of the first 'active'
    carousel item; so at most one indicator is active, and none when no
    item is active or there are fewer indicators than that position.
    Indicators keep their number and every other class. *)
Theorem slid_marks_indicator_of_active_item
    (d : CarouselDom) (k : nat) (c' : gset string) :
  NoDup (fst <$> items d) →
  indicators (onSlid d) !! k = Some c' →
  ∃ c, indicators d !! k = Some c ∧
       ("active" ∈ c' ↔ first_active (items d) = Some k) ∧
       (∀ x, x ≠ "active" → x ∈ c' ↔ x ∈ c) ∧
       length (indicators (onSlid d)) = length (indicators d).
Proof.
  intros Hn. unfold onSlid. cbn [indicators].
  rewrite (activeIndex_first_active _ Hn). unfold activate_indicator.
  destruct (first_active (items d)) as [j|] eqn:Ef.
  - rewrite at_index_of_nat, Nat2Z.id, list_lookup_fmap.
    destruct (indicators d !! j) as [cj|] eqn:Ej; cbn [fmap option_fmap option_map].
    + destruct (decide (j = k)) as [->|Hne].
      * rewrite list_lookup_insert_eq
          by (rewrite length_fmap; by eapply lookup_lt_Some).
        intros [= <-]. exists cj. split; [done|].
        split; [|split; [|by rewrite length_insert, length_fmap]].
        -- split; [done|]. intros _. apply elem_of_union_r, elem_of_singleton. done.
        -- intros x Hx.
           rewrite elem_of_union, elem_of_difference, elem_of_singleton. tauto.
      * rewrite list_lookup_insert_ne by done. rewrite list_lookup_fmap.
        destruct (indicators d !! k) as [c|]; [|done]. cbn. intros [= <-].
        exists c. split; [done|].
        split; [|split; [|by rewrite length_insert, length_fmap]].
        -- rewrite elem_of_difference, elem_of_singleton.
           split; [tauto|]. intros [= E]. done.
        -- intros x Hx. rewrite elem_of_difference, elem_of_singleton. tauto.
    + rewrite list_lookup_fmap.
      destruct (indicators d !! k) as [c|] eqn:Ek; [|done]. cbn. intros [= <-].
      exists c. split; [done|]. split; [|split; [|by rewrite length_fmap]].
      * rewrite elem_of_difference, elem_of_singleton.
        split; [tauto|]. intros [= ->]. congruence.
      * intros x Hx. rewrite elem_of_difference, elem_of_singleton. tauto.
  - unfold at_index. rewrite decide_False by lia. rewrite list_lookup_fmap.
    destruct (indicators d !! k) as [c|]; [|done]. cbn. intros [= <-].
    exists c. split; [done|]. split; [|split; [|by rewrite length_fmap]].
    + rewrite elem_of_difference, elem_of_singleton. split; [tauto|done].
    + intros x Hx. rewrite elem_of_difference, elem_of_singleton. tauto.
Qed.

Lemma slid_marks_indicator_of_active_item_witness :
  let d := mkCarouselDom
             [(1, {["carousel-item"]}); (2, {["carousel-item"; "active"]})]
             [{["indicator-line"; "active"]}; {["indicator-line"]}] in
  ∃ c, indicators d !! 0 = Some c ∧
       ("active" ∈ ({["indicator-line"]} : gset string) ↔ first_active (items d) = Some 0) ∧
       (∀ x, x ≠ "active" → x ∈ ({["indicator-line"]} : gset string) ↔ x ∈ c) ∧
       length (indicators (onSlid d)) = length (indicators d).
Proof.
  apply (slid_marks_indicator_of_active_item
           (mkCarouselDom
              [(1, {["carousel-item"]}); (2, {["carousel-item"; "active"]})]
              [{["indicator-line"; "active"]}; {["indicator-line"]}])
           0 {["indicator-line"]}).
  - apply (bool_decide_unpack _). vm_compute. exact I.
  - vm_compute. reflexivity.
Defined.

(** ** The certificate modal *)

Lemma open_all_snoc (cards : list CertCard) (card : CertCard) (m : ModalDom) :
  open_all (cards ++ [card]) m = openCertificateModal card (open_all cards m).
Proof. unfold open_all. by rewrite foldl_app. Qed.

Lemma open_all_frame (cards : list CertCard) (m : ModalDom) :
  let m' := open_all cards m in
  ((λ _, ()) <$> modalImage m' = (λ _, ()) <$> modalImage m) ∧
  ((λ _, ()) <$> modalTitle m' = (λ _, ()) <$> modalTitle m) ∧
  ((λ _, ()) <$> modalIssuer m' = (λ _, ()) <$> modalIssuer m) ∧
  ((λ _, ()) <$> modalDate m' = (λ _, ()) <$> modalDate m) ∧
  carousel m' = (λ calls, calls ++ replicate (length cards) CarouselPause) <$> carousel m ∧
  modal_shown m' = modal_shown m + length cards.
Proof.
  cbn zeta. induction cards as [|card cards IH] using rev_ind.
  - cbn. destruct (carousel m) as [calls|]; cbn; [by rewrite app_nil_r|done].
  - rewrite open_all_snoc. destruct IH as (I1 & I2 & I3 & I4 & I5 & I6).
    unfold openCertificateModal, set_text_if, carousel_call. cbn.
    rewrite I5, I6, length_app. cbn.
    destruct (modalImage (open_all cards m)) as [[src alt]|];
      destruct (modalTitle (open_all cards m));
      destruct (modalIssuer (open_all cards m));
      destruct (modalDate (open_all cards m));
      destruct (carousel m) as [calls|]; cbn in *;
      repeat split; try done; try lia;
      try (destruct (truthy (certificate card)); done);
      by rewrite <- app_assoc, <- replicate_cons_app, Nat.add_1_r.
Qed.

(** X18. Closing the modal (the 'hidden.bs.modal' event) after any number
    of cards were opened empties the image source and the three texts,
    whatever the cards held; on the carousel it makes one [pause()] call per
    opened card followed by one [cycle()], and [show()] was called once per
    card. *)
Theorem modal_close_clears_and_resumes (cards : list CertCard) (m : ModalDom) :
  let m' := onModalHidden (open_all cards m) in
  modal_content m' =
    ((λ _, "") <$> modalImage m, (λ _, "") <$> modalTitle m,
     (λ _, "") <$> modalIssuer m, (λ _, "") <$> modalDate m) ∧
  carousel m' =
    (λ calls, calls ++ replicate (length cards) CarouselPause ++ [CarouselCycle])
      <$> carousel m ∧
  modal_shown m' = modal_shown m + length cards.
Proof.
  cbn zeta. destruct (open_all_frame cards m) as (I1 & I2 & I3 & I4 & I5 & I6).
  cbn zeta in *. unfold onModalHidden, modal_content, carousel_call. cbn.
  rewrite I5, I6.
  destruct (modalImage (open_all cards m)) as [[src alt]|], (modalImage m) as [[]|];
    try done;
  destruct (modalTitle (open_all cards m)), (modalTitle m); try done;
  destruct (modalIssuer (open_all cards m)), (modalIssuer m); try done;
  destruct (modalDate (open_all cards m)), (modalDate m); try done;
  destruct (carousel m) as [calls|]; cbn; by rewrite ?app_assoc.
Qed.



(** ** [debounce] *)

Lemma debounce_run_snoc {A : Type} (wait : nat) (es : list (DebounceEvent A))
    (e : DebounceEvent A) (s : Debounced A) :
  debounce_run wait (es ++ [e]) s = debounce_step wait e (debounce_run wait es s).
Proof. unfold debounce_run. by rewrite foldl_app. Qed.

Lemma call_args_snoc {A : Type} (es : list (DebounceEvent A)) (e : DebounceEvent A) :
  call_args (es ++ [e]) =
  call_args es ++ match e with DbCall a => [a] | DbFire _ => [] end.
Proof. unfold call_args. rewrite omap_app. by destruct e. Qed.

Lemma filter_own_timer {A : Type} (id wait : nat) (a : A) :
  filter (λ t', timer_id t' ≠ id) [mkTimer id wait a] = [].
Proof. rewrite filter_cons_False by (intros H; by apply H). apply filter_nil. Qed.

Lemma debounce_step_inv {A : Type} (wait : nat) (e : DebounceEvent A)
    (s : Debounced A) (cs : list A) :
  debounce_inv wait s cs →
  debounce_inv wait (debounce_step wait e s)
    (cs ++ match e with DbCall a => [a] | DbFire _ => [] end).
Proof.
  intros [[Hp Hs]|(id & a & cs' & Hp & Ht & -> & Hs)]; destruct e as [b|id0];
    cbn [debounce_step].
  - right. exists (db_next s), b, cs. unfold executedFunction, clearTimeout.
    cbn [db_pending db_timeout db_invoked]. rewrite Hp.
    split; [by destruct (db_timeout s)|done].
  - left. rewrite app_nil_r. unfold later_fires. by rewrite Hp.
  - right. exists (db_next s), b, (cs' ++ [a]). unfold executedFunction, clearTimeout.
    cbn [db_pending db_timeout db_invoked]. rewrite Hp, Ht.
    rewrite filter_own_timer.
    split; [done|]. split; [done|]. split; [done|]. by apply sublist_inserts_r.
  - rewrite app_nil_r. unfold later_fires. rewrite Hp. cbn [list_find].
    destruct (decide (timer_id (mkTimer id wait a) = id0)) as [E|E]; cbn in E.
    + left. subst id0. cbn [fmap option_fmap option_map prod_map fst snd].
      unfold clearTimeout. cbn [db_pending db_timeout db_invoked timer_args].
      rewrite filter_own_timer, Ht. rewrite filter_nil.
      split; [done|]. by apply sublist_app.
    + right. exists id, a, cs'. done.
Qed.

Lemma debounce_run_inv {A : Type} (wait next : nat) (es : list (DebounceEvent A)) :
  debounce_inv wait (debounce_run wait es (debounce next)) (call_args es).
Proof.
  induction es as [|e es IH] using rev_ind.
  - left. split; [done|]. apply sublist_nil_l.
  - rewrite debounce_run_snoc, call_args_snoc. by apply debounce_step_inv.
Qed.

(** X20. For a function made by [debounce], after any calls and timeouts:
    at most one timeout is pending; if one is, the variable [timeout] holds
    its id and it carries the arguments of the most recent call; and the
    invocations of [func] so far took their arguments, in order, from
    calls made (a subsequence of them: [func] never runs more often than
    the function was called, and never with arguments nobody passed). *)
Theorem debounce_one_timer_pending
    {A : Type} (wait next : nat) (es : list (DebounceEvent A)) :
  let s := debounce_run wait es (debounce next) in
  (length (db_pending s) ≤ 1)%nat ∧
  (∀ t, t ∈ db_pending s →
        db_timeout s = Some (timer_id t) ∧ last (call_args es) = Some (timer_args t)) ∧
  sublist (db_invoked s) (call_args es).
Proof.
  cbn zeta.
  destruct (debounce_run_inv wait next es) as [[Hp Hs]|(id & a & cs' & Hp & Ht & Hc & Hs)];
    rewrite Hp.
  - split; [cbn; lia|]. split; [|done]. by intros t ?%elem_of_nil.
  - split; [done|]. split.
    + intros t ->%list_elem_of_singleton. cbn. split; [done|].
      rewrite Hc. apply last_snoc.
    + rewrite Hc. by apply sublist_inserts_r.
Qed.

(** X21. A burst collapses to its last call.  After any history, calling
    the debounced function once or more with no timeout firing in between
    invokes [func] not at all and leaves exactly one timeout pending; when
    that one fires, [func] is invoked once, with the arguments of the last
    call of the burst, and nothing stays pending. *)
Theorem debounce_burst_collapses
    {A : Type} (wait next : nat) (es : list (DebounceEvent A)) (l : list A) (a : A) :
  let s := debounce_run wait es (debounce next) in
  let s' := debounce_run wait (DbCall <$> (l ++ [a])) s in
  ∃ id, db_pending s' = [mkTimer id wait a] ∧
        db_timeout s' = Some id ∧
        db_invoked s' = db_invoked s ∧
        db_invoked (later_fires id s') = db_invoked s ++ [a] ∧
        db_pending (later_fires id s') = [].
Proof.
  cbn zeta.
  set (s := debounce_run wait es (debounce next)).
  assert (Hinv : ∀ k, db_invoked (debounce_run wait (DbCall <$> k) s) = db_invoked s).
  { induction k as [|b k IH] using rev_ind; [done|].
    by rewrite fmap_snoc, debounce_run_snoc. }
  pose proof (debounce_run_inv wait next (es ++ (DbCall <$> (l ++ [a])))) as H.
  unfold debounce_run in H. rewrite foldl_app in H. fold (debounce_run wait es (debounce next)) in H.
  fold s in H. fold (debounce_run wait (DbCall <$> (l ++ [a])) s) in H.
  set (s' := debounce_run wait (DbCall <$> (l ++ [a])) s) in *.
  assert (Hcs : ∃ cs, call_args (es ++ (DbCall <$> (l ++ [a]))) = cs ++ [a]).
  { exists (call_args (es ++ (DbCall <$> l))).
    rewrite fmap_snoc, app_assoc. by rewrite call_args_snoc. }
  destruct Hcs as [cs Hcs]. rewrite Hcs in H.
  assert (Hne : db_pending s' ≠ []).
  { subst s'. rewrite fmap_snoc, debounce_run_snoc. cbn. unfold executedFunction. cbn.
    intros E. by apply app_nil in E as [_ ?]. }
  destruct H as [[Hp _]|(id & b & cs' & Hp & Ht & Hc & Hs)]; [done|].
  apply app_inj_tail in Hc as [_ <-].
  exists id. split; [done|]. split; [done|]. split; [apply Hinv|].
  unfold later_fires. rewrite Hp. cbn [list_find].
  rewrite decide_True by done.
  cbn [fmap option_fmap option_map prod_map fst snd].
  unfold clearTimeout. cbn [db_pending db_timeout db_invoked timer_args].
  rewrite filter_own_timer, Ht, filter_nil.
  split; [|done]. f_equal. apply Hinv.
Qed.

(** ** [throttle] *)

Lemma throttle_run_snoc {A : Type} (func : A → option Exn) (es : list (ThrottleEvent A))
    (e : ThrottleEvent A) (s : Throttled A) :
  throttle_run func (es ++ [e]) s = throttle_step func e (throttle_run func es s).
Proof. unfold throttle_run. by rewrite foldl_app. Qed.

Lemma fire_count_app {A : Type} (es es' : list (ThrottleEvent A)) :
  fire_count (es ++ es') = fire_count es + fire_count es'.
Proof.
  induction es as [|[a|id] es IH]; cbn [fire_count app]; [done|done|].
  by rewrite IH.
Qed.

Lemma returned_calls_snoc {A : Type} (func : A → option Exn) (l : list A) (a : A) :
  returned_calls func (l ++ [a]) =
  returned_calls func l ++ (if decide (func a = None) then [a] else []).
Proof. unfold returned_calls. rewrite filter_app. reflexivity. Qed.

Lemma throttle_step_inv {A : Type} (func : A → option Exn) (e : ThrottleEvent A)
    (s : Throttled A) (n : nat) :
  throttle_inv func s n →
  throttle_inv func (throttle_step func e s)
    (n + match e with ThFire _ => 1 | ThCall _ => 0 end).
Proof.
  intros [Hst Hle]. destruct e as [a|id]; cbn [throttle_step].
  - unfold throttled.
    destruct Hst as [[Ht Hp]|[Ht [id Hp]]]; rewrite Ht; cbn [snd].
    + destruct (func a) as [x|] eqn:Ef; cbn [snd].
      * split; [left; by split|]. cbn [th_invoked th_pending].
        rewrite returned_calls_snoc, Ef, decide_False by done.
        rewrite app_nil_r. lia.
      * split; [right; split; [done|]; exists (th_next s); cbn; by rewrite Hp|].
        cbn [th_invoked th_pending].
        rewrite returned_calls_snoc, Ef, decide_True by done.
        rewrite !length_app, Hp in *. cbn in *. lia.
    + split; [right; eauto|]. lia.
  - unfold reset_fires.
    destruct Hst as [[Ht Hp]|[Ht [id' Hp]]]; rewrite Hp in *.
    + rewrite decide_False by (by intros ?%elem_of_nil).
      split; [left; by split|]. rewrite Hp. cbn in *. lia.
    + destruct (decide (id ∈ [id'])) as [Hin|Hin].
      * apply list_elem_of_singleton in Hin as ->.
        split; [left; split; [done|]|]; cbn [th_pending th_invoked th_inThrottle].
        -- rewrite filter_cons_False by (intros H; by apply H). apply filter_nil.
        -- cbn in Hle. lia.
      * split; [right; split; [done|by exists id']|]. rewrite Hp. cbn in *. lia.
Qed.

Lemma throttle_run_inv {A : Type} (func : A → option Exn) (next : nat)
    (es : list (ThrottleEvent A)) :
  throttle_inv func (throttle_run func es (throttle next)) (fire_count es).
Proof.
  induction es as [|e es IH] using rev_ind.
  - split; [left; by split|]. cbn. lia.
  - rewrite throttle_run_snoc, fire_count_app.
    replace (fire_count [e]) with (match e with ThFire _ => 1 | ThCall _ => 0 end)
      by (by destruct e).
    by apply throttle_step_inv.
Qed.




(** ** The projects carousel: swipes and resizes *)

Lemma swipe_step_no_global (e : SwipeEvent) (s : SwipePage) :
  global_startX s = None →
  let s' := swipe_step e s in
  global_startX s' = None ∧
  swipe_calls s' = swipe_calls s ∧
  (swipe_errors s' = swipe_errors s ∨
   swipe_errors s' = swipe_errors s ++ [ReferenceError "startX"]) ∧
  (isMouseDown s = true → e ≠ MouseLeave → isMouseDown s' = true).
Proof.
  intros Hg. destruct e as [x|x|x|x|]; cbn [swipe_step];
    unfold ProjectsCarousel.handleSwipe, report_swipe;
    cbn [global_startX global_endX startX endX isMouseDown swipe_calls swipe_errors];
    rewrite ?Hg.
  - split; [done|]. split; [done|]. split; [by left|done].
  - split; [done|]. split; [done|]. split; [by right|done].
  - split; [done|]. split; [done|]. split; [by left|done].
  - destruct (isMouseDown s) eqn:Hd;
      cbn [global_startX global_endX startX endX isMouseDown swipe_calls swipe_errors];
      rewrite ?Hg.
    + split; [done|]. split; [done|]. split; [by right|done].
    + split; [done|]. split; [done|]. split; [by left|done].
  - split; [done|]. split; [done|]. split; [by left|done].
Qed.

(** X24. On a page where no script defines global variables [startX] and
    [endX], no touch or mouse gesture ever reaches the carousel: whatever
    events arrive, [this.carousel] receives no call, the only errors are
    ReferenceErrors for [startX] raised in [handleSwipe], and because that
    error leaves the 'mouseup' listener early, a 'mouseup' after a
    'mousedown' leaves [isMouseDown] set. *)
Theorem swipe_never_reaches_carousel
    (s : SwipePage) (es : list SwipeEvent) (x0 x : Q) :
  global_startX s = None →
  let s' := swipe_run es s in
  swipe_calls s' = swipe_calls s ∧
  (∃ n, swipe_errors s' = swipe_errors s ++ replicate n (ReferenceError "startX")) ∧
  isMouseDown (swipe_step (MouseUp x) (swipe_step (MouseDown x0) s')) = true.
Proof.
  intros Hg. cbn zeta.
  assert (H : global_startX (swipe_run es s) = None ∧
              swipe_calls (swipe_run es s) = swipe_calls s ∧
              ∃ n, swipe_errors (swipe_run es s)
                   = swipe_errors s ++ replicate n (ReferenceError "startX")).
  { induction es as [|e es IH] using rev_ind.
    - split; [done|]. split; [done|]. exists 0. cbn. by rewrite app_nil_r.
    - unfold swipe_run. rewrite foldl_app. cbn [foldl]. fold (swipe_run es s).
      destruct IH as (I1 & I2 & n & I3).
      destruct (swipe_step_no_global e _ I1) as (S1 & S2 & S3 & _).
      split; [done|]. split; [congruence|].
      destruct S3 as [S3|S3]; rewrite S3, I3.
      + by exists n.
      + exists (S n). rewrite <- app_assoc. f_equal.
        change [ReferenceError "startX"] with (replicate 1 (ReferenceError "startX")).
        rewrite <- replicate_add. f_equal. lia. }
  destruct H as (H1 & H2 & H3). split; [done|]. split; [done|].
  set (s1 := swipe_step (MouseDown x0) (swipe_run es s)).
  assert (Hg1 : global_startX s1 = None) by exact H1.
  destruct (swipe_step_no_global (MouseUp x) s1 Hg1) as (_ & _ & _ & Hd).
  by apply Hd.
Qed.

Lemma swipe_never_reaches_carousel_witness :
  let es := [TouchStart (inject_Z 300); TouchEnd (inject_Z 40);
             MouseDown (inject_Z 10); MouseUp (inject_Z 400)] in
  let s' := swipe_run es swipe_init in
  swipe_calls s' = swipe_calls swipe_init ∧
  (∃ n, swipe_errors s'
        = swipe_errors swipe_init ++ replicate n (ReferenceError "startX")) ∧
  isMouseDown (swipe_step (MouseUp 0) (swipe_step (MouseDown 0) s')) = true.
Proof.
  apply (swipe_never_reaches_carousel swipe_init
           [TouchStart (inject_Z 300); TouchEnd (inject_Z 40);
            MouseDown (inject_Z 10); MouseUp (inject_Z 400)] 0 0).
  reflexivity.
Defined.

Lemma resize_run_snoc (es : list ResizeEvent) (e : ResizeEvent) (p : ResizePage) :
  resize_run (es ++ [e]) p = resize_step e (resize_run es p).
Proof. unfold resize_run. by rewrite foldl_app. Qed.

Lemma resize_step_debounced (e : ResizeEvent) (p : ResizePage) :
  resize_debounced (resize_step e p) =
  debounce_step 250
    (match e with Resize _ => DbCall () | TimeoutFires id => DbFire id end)
    (resize_debounced p).
Proof.
  destruct e as [w|id]; cbn [resize_step debounce_step]; [done|].
  unfold later_fires.
  by destruct (list_find _ (db_pending (resize_debounced p))) as [[i t]|].
Qed.

Lemma resize_run_debounced (es : list ResizeEvent) (p : ResizePage) :
  resize_debounced (resize_run es p) =
  debounce_run 250 (debounce_events es) (resize_debounced p).
Proof.
  induction es as [|e es IH] using rev_ind; [done|].
  unfold debounce_events. rewrite resize_run_snoc, fmap_snoc, debounce_run_snoc.
  rewrite resize_step_debounced. by rewrite IH.
Qed.

Lemma resizes_keep_carousel (ws : list Z) (p : ResizePage) :
  disposed (resize_run (Resize <$> ws) p) = disposed p ∧
  carousel_options (resize_run (Resize <$> ws) p) = carousel_options p ∧
  (∀ w, last ws = Some w → innerWidth (resize_run (Resize <$> ws) p) = w).
Proof.
  induction ws as [|w ws IH] using rev_ind; [done|].
  rewrite fmap_snoc, resize_run_snoc. cbn [resize_step disposed carousel_options innerWidth].
  destruct IH as (I1 & I2 & _). split; [done|]. split; [done|].
  intros w'. rewrite last_snoc. by intros [= ->].
Qed.

(** X25. One reconfiguration per burst of resizes.  After any history, a
    run of one or more 'resize' events with no timeout firing in between
    neither disposes of the carousel nor changes its options; when the
    pending timeout fires, the carousel is disposed of and recreated once,
    with the mobile options if the width of the last resize is below 768
    and the desktop options otherwise, and no timeout stays pending. *)
Theorem resize_burst_reconfigures_once
    (w0 : Z) (next : nat) (es : list ResizeEvent) (ws : list Z) (w : Z) :
  let p := resize_run es (resize_init w0 next) in
  let p1 := resize_run (Resize <$> (ws ++ [w])) p in
  disposed p1 = disposed p ∧
  carousel_options p1 = carousel_options p ∧
  ∃ id, db_timeout (resize_debounced p1) = Some id ∧
        let p2 := resize_step (TimeoutFires id) p1 in
        disposed p2 = S (disposed p) ∧
        carousel_options p2 =
          (if bool_decide (w < 768)%Z then mobile_options else desktop_options) ∧
        db_pending (resize_debounced p2) = [].
Proof.
  cbn zeta. set (p := resize_run es (resize_init w0 next)).
  destruct (resizes_keep_carousel (ws ++ [w]) p) as (K1 & K2 & K3).
  specialize (K3 w (last_snoc _ _)).
  set (p1 := resize_run (Resize <$> (ws ++ [w])) p) in *.
  split; [done|]. split; [done|].
  assert (Hd : resize_debounced p1 =
               debounce_run 250 (debounce_events (es ++ (Resize <$> (ws ++ [w]))))
                 (debounce next)).
  { subst p1 p. rewrite !resize_run_debounced. unfold debounce_events, debounce_run.
    by rewrite (fmap_app _ es), foldl_app. }
  pose proof (debounce_run_inv 250 next
                (debounce_events (es ++ (Resize <$> (ws ++ [w]))))) as Hinv.
  rewrite <- Hd in Hinv.
  assert (Hne : db_pending (resize_debounced p1) ≠ []).
  { subst p1. rewrite fmap_snoc, resize_run_snoc. cbn. unfold executedFunction. cbn.
    intros E. by apply app_nil in E as [_ ?]. }
  destruct Hinv as [[Hp _]|(id & [] & cs' & Hp & Ht & _ & _)]; [done|].
  exists id. split; [done|].
  cbn [resize_step]. rewrite Hp. cbn [list_find].
  rewrite decide_True by done. cbn [fmap option_fmap option_map].
  unfold updateCarouselBehavior.
  cbn [disposed carousel_options innerWidth resize_debounced].
  rewrite K1, K3. split; [done|]. split; [done|].
  unfold later_fires. rewrite Hp. cbn [list_find]. rewrite decide_True by done.
  cbn [fmap option_fmap option_map prod_map fst snd].
  unfold clearTimeout. cbn [db_pending db_timeout].
  by rewrite filter_own_timer, Ht, filter_nil.
Qed.

(** ** Arrow keys: nav links and the certificate carousel together *)

(** X26. Both 'keydown' listeners on the document act on the same key
    press.  With a certificate carousel on the page and the focus on a nav
    link, ArrowRight moves the focus to the next nav link and also calls
    [next()] on the carousel, and ArrowLeft moves it to the previous link
    and also calls [prev()]; ArrowDown and ArrowUp move the focus only.
    The theme state is not touched. *)
Theorem arrow_keys_move_links_and_carousel
    (e : KeyEvent) (d : DocPage) (i : nat) (calls : list CarouselCall) :
  focus_on_link i (kp_focus (doc_keys d)) →
  cert_carousel d = Some calls →
  forward_key (key e) ∨ backward_key (key e) →
  let f := kp_focus (doc_keys d) in
  let j := if decide (forward_key (key e)) then next_pos i (length (navLinks f))
           else prev_pos i (length (navLinks f)) in
  ∃ x, navLinks f !! j = Some x ∧
       document_keydown e d =
         mkDocPage (mkKeyPage (kp_world (doc_keys d)) (focus_moved x f) true)
                   (Some (calls ++ carousel_calls_for (key e))).
Proof.
  intros Hf Hc Hk. cbn zeta.
  set (p := doc_keys d) in *.
  assert (Hcar : ∃ b, onCarouselKeydown e (cert_carousel d) false
                      = (Some (calls ++ carousel_calls_for (key e)), b)).
  { unfold onCarouselKeydown, carousel_calls_for. rewrite Hc.
    destruct (decide (key e = "ArrowLeft")); [by eexists|].
    destruct (decide (key e = "ArrowRight")); [by eexists|].
    rewrite app_nil_r. by eexists. }
  destruct Hcar as [b Hcar].
  unfold document_keydown. rewrite Hcar. fold p.
  unfold onKeydown. rewrite (arrow_key_is_no_shortcut e Hk).
  assert (Hf' : focus_on_link i (kp_focus (mkKeyPage (kp_world p) (kp_focus p) b)))
    by exact Hf.
  case_decide as Hd.
  - destruct (onArrowKeys_forward e _ i Hf' Hd) as (x & Hx & E).
    exists x. split; [done|]. by rewrite E.
  - destruct Hk as [Hk|Hk]; [done|].
    destruct (onArrowKeys_backward e _ i Hf' Hk) as (x & Hx & E).
    exists x. split; [done|]. by rewrite E.
Qed.

Lemma arrow_keys_move_links_and_carousel_witness :
  let e := mkKeyEvent false false "ArrowRight" in
  let d := mkDocPage sample_key_page (Some [CarouselCycle]) in
  let f := kp_focus (doc_keys d) in
  let j := if decide (forward_key (key e)) then next_pos 3 (length (navLinks f))
           else prev_pos 3 (length (navLinks f)) in
  ∃ x, navLinks f !! j = Some x ∧
       document_keydown e d =
         mkDocPage (mkKeyPage (kp_world (doc_keys d)) (focus_moved x f) true)
                   (Some ([CarouselCycle] ++ carousel_calls_for (key e))).
Proof.
  apply (arrow_keys_move_links_and_carousel (mkKeyEvent false false "ArrowRight")
           (mkDocPage sample_key_page (Some [CarouselCycle])) 3 [CarouselCycle]).
  - exact sample_focus_on_last_link.
  - reflexivity.
  - left. right. reflexivity.
Defined.
